(** * create_visualizations.py: the reshaping pipeline behind the four figures

    A shallow embedding of [src/create_visualizations.py].  The script loads
    three CSV tables with pandas, reshapes them (group-by, pivot, melt,
    numeric coercion, date assembly) and hands the result to seaborn and
    matplotlib.  The embedding keeps the data that reaches the plotting
    calls and the effects the script has on its tables and on the file
    system; pixels are not modelled.

    Conventions.
    - A pandas float is a rational ([Q]) or NaN: [float := option Q], with
      [None] for NaN.  Rounding error of binary floating point is not
      modelled.
    - A raw CSV cell of an [object] column is a [Cell]: a number, a string
      token, or a missing value.
    - Fallible library calls return a [result]; the Python exception is the
      [error] constructor. *)

From Stdlib Require Import ZArith QArith Qround Lqa String Ascii List Sorted Lia.
From stdpp Require Import base option list gmap strings.

Local Open Scope string_scope.
Local Open Scope Z_scope.

(** ** Errors and results *)

Inductive error : Type :=
  | ValueError_duplicate_entries   (* pivot: "Index contains duplicate entries" *)
  | KeyError (col : string)        (* a column that the frame does not have *)
  | ValueError_to_numeric          (* to_numeric(errors="raise") on a bad token *)
  | ValueError_assemble            (* to_datetime: cannot assemble the datetimes *)
  | FileNotFoundError (path : string)
  | FileExistsError (path : string)
  | NotADirectoryError (path : string)
  | IsADirectoryError (path : string)
  | TypeError_frame                (* a table of the wrong shape *)
  | RenderError.                   (* raised inside seaborn / matplotlib *)

Inductive result (A : Type) : Type :=
  | Ok (a : A)
  | Err (e : error).
Arguments Ok {A} a.
Arguments Err {A} e.

(** ** Ordered labels

    pandas sorts group keys, pivot indexes and pivot columns.  Labels are
    compared with Python's [<]: integers numerically, strings by code point
    (bytewise on the UTF-8 encoding), tuples lexicographically. *)

Class KeyOrder (K : Type) := {
  kcmp : K → K → comparison;
  kcmp_eq : ∀ x y, kcmp x y = Eq ↔ x = y;
  kcmp_opp : ∀ x y, kcmp y x = CompOpp (kcmp x y);
  kcmp_lt_trans : ∀ x y z, kcmp x y = Lt → kcmp y z = Lt → kcmp x z = Lt
}.

Definition klt {K} `{KeyOrder K} (x y : K) : Prop := kcmp x y = Lt.

Lemma ascii_compare_lt_trans (a b c : ascii) :
  Ascii.compare a b = Lt → Ascii.compare b c = Lt → Ascii.compare a c = Lt.
Proof.
  unfold Ascii.compare. rewrite !N.compare_lt_iff. lia.
Qed.

Lemma string_compare_refl (s : string) : String.compare s s = Eq.
Proof.
  induction s as [|a s IH]; simpl; [done|].
  unfold Ascii.compare. by rewrite N.compare_refl.
Qed.

Lemma string_compare_lt_trans (s1 s2 s3 : string) :
  String.compare s1 s2 = Lt → String.compare s2 s3 = Lt →
  String.compare s1 s3 = Lt.
Proof.
  revert s2 s3. induction s1 as [|a s1 IH]; intros [|b s2] [|c s3]; simpl; try done.
  destruct (Ascii.compare a b) eqn:Hab; try done.
  - apply Ascii.compare_eq_iff in Hab as ->.
    destruct (Ascii.compare b c); try done. apply IH.
  - destruct (Ascii.compare b c) eqn:Hbc; try done.
    + apply Ascii.compare_eq_iff in Hbc as <-. by rewrite Hab.
    + by rewrite (ascii_compare_lt_trans _ _ _ Hab Hbc).
Qed.

#[export] Program Instance Z_KeyOrder : KeyOrder Z := {| kcmp := Z.compare |}.
Next Obligation. intros x y. apply Z.compare_eq_iff. Qed.
Next Obligation. intros x y. apply Z.compare_antisym. Qed.
Next Obligation. intros x y z. rewrite !Z.compare_lt_iff. lia. Qed.

#[export] Program Instance string_KeyOrder : KeyOrder string :=
  {| kcmp := String.compare |}.
Next Obligation.
  intros x y. split; [apply String.compare_eq_iff|intros ->; apply string_compare_refl].
Qed.
Next Obligation. intros x y. apply String.compare_antisym. Qed.
Next Obligation. apply string_compare_lt_trans. Qed.

(** Tuples, as Python compares them. *)
Definition pair_cmp {A B} `{KeyOrder A, KeyOrder B} (p q : A * B) : comparison :=
  match kcmp p.1 q.1 with
  | Eq => kcmp p.2 q.2
  | c => c
  end.

#[export] Program Instance pair_KeyOrder {A B} `{KeyOrder A, KeyOrder B} :
  KeyOrder (A * B) := {| kcmp := pair_cmp |}.
Next Obligation.
  intros A B HA HB [a b] [a' b']. unfold pair_cmp; simpl. split.
  - destruct (kcmp a a') eqn:E; try done.
    apply kcmp_eq in E as ->. by intros ->%kcmp_eq.
  - intros [= -> ->]. by rewrite !(proj2 (kcmp_eq _ _) eq_refl).
Qed.
Next Obligation.
  intros A B HA HB [a b] [a' b']. unfold pair_cmp; simpl.
  rewrite (kcmp_opp a a'). destruct (kcmp a a'); simpl; try done. apply kcmp_opp.
Qed.
Next Obligation.
  intros A B HA HB [a b] [a' b'] [a'' b'']. unfold pair_cmp; simpl.
  destruct (kcmp a a') eqn:E1; try done.
  - apply kcmp_eq in E1 as ->. destruct (kcmp a' a'') eqn:E2; try done.
    apply kcmp_lt_trans.
  - intros _. destruct (kcmp a' a'') eqn:E2; try done.
    + apply kcmp_eq in E2 as <-. by rewrite E1.
    + by rewrite (kcmp_lt_trans _ _ _ E1 E2).
Qed.

Section Sorting.
Context {K : Type} (cmp : K → K → comparison).

(** The sorted array of distinct values ([Index.unique] then sort, as
    group-by and pivot build their axes; also [np.unique]). *)
Fixpoint insert_uniq (x : K) (l : list K) : list K :=
  match l with
  | [] => [x]
  | y :: l' =>
      match cmp x y with
      | Lt => x :: l
      | Eq => l
      | Gt => y :: insert_uniq x l'
      end
  end.

Definition sort_unique (l : list K) : list K := foldr insert_uniq [] l.

(** A stable sort of rows by a key ([sort_index], [np.sort]). *)
Fixpoint insert_by {A} (key : A → K) (x : A) (l : list A) : list A :=
  match l with
  | [] => [x]
  | y :: l' =>
      match cmp (key x) (key y) with
      | Gt => y :: insert_by key x l'
      | _ => x :: l
      end
  end.

Definition sort_by {A} (key : A → K) (l : list A) : list A :=
  foldr (insert_by key) [] l.

(** Position of a label on an axis ([Index.get_loc]). *)
Fixpoint index_of (x : K) (l : list K) : option nat :=
  match l with
  | [] => None
  | y :: l' =>
      match cmp x y with
      | Eq => Some 0%nat
      | _ => S <$> index_of x l'
      end
  end.
End Sorting.

(** ** Floats and raw cells *)

(** A float64 cell: a number or NaN. *)
Abbreviation float := (option Q) (only parsing).
Abbreviation NaN := (@None Q) (only parsing).

(** A cell as [read_csv] leaves it in a column it could not parse as
    numbers: a number, a string token, or a missing value. *)
Inductive Cell : Type :=
  | CNum (q : Q)
  | CStr (s : string)
  | CNA.

Definition Qsum (l : list Q) : Q := foldr Qplus 0%Q l.

(** The numbers of a float column: what is left when the NaN cells are
    skipped ([skipna=True], the default of the reductions). *)
Definition dropna (l : list float) : list Q := omap id l.

(** The mean of the numbers of a series: their sum over their count,
    NaN when there is none. *)
Definition mean (l : list Q) : float :=
  match l with
  | [] => NaN
  | _ => Some (Qsum l / inject_Z (Z.of_nat (length l)))%Q
  end.

(** ** Label-indexed matrices (the result of [DataFrame.pivot]) *)

Record Matrix (I C : Type) : Type := {
  index : list I;            (* row labels *)
  columns : list C;          (* column labels *)
  values : list (list float) (* one row per row label, one cell per column label *)
}.
Arguments index {I C} _.
Arguments columns {I C} _.
Arguments values {I C} _.

Section Pivot.
Context {I C : Type} `{KeyOrder I, KeyOrder C}.
Context `{EqDecision I, EqDecision C}.

(** [M.loc[i, c]]: [None] when a label is absent from its axis. *)
Definition loc (M : Matrix I C) (i : I) (c : C) : option float :=
  j ← index_of kcmp i (index M);
  k ← index_of kcmp c (columns M);
  row ← values M !! j;
  row !! k.

(** The value of the long-format row labelled [(i, c)], NaN if there is none. *)
Fixpoint lookup_cell (i : I) (c : C) (long : list (I * C * float)) : float :=
  match long with
  | [] => NaN
  | (i', c', v) :: long' =>
      if decide (i' = i ∧ c' = c) then v else lookup_cell i c long'
  end.

(** [long.pivot(index=.., columns=.., values=..)]: both axes hold the
    sorted distinct labels; a repeated (index, column) pair raises. *)
Definition pivot (long : list (I * C * float)) : result (Matrix I C) :=
  if decide (NoDup (fst <$> long)) then
    let idx := sort_unique kcmp ((λ t, t.1.1) <$> long) in
    let cols := sort_unique kcmp ((λ t, t.1.2) <$> long) in
    Ok {| index := idx; columns := cols;
          values := (λ i, (λ c, lookup_cell i c long) <$> cols) <$> idx |}
  else Err ValueError_duplicate_entries.

(** [M.sort_index(axis=1)]: columns reordered by label, stably. *)
Definition sort_index_columns (M : Matrix I C) : Matrix I C :=
  let order := sort_by kcmp fst (zip (columns M) (seq 0 (length (columns M)))) in
  {| index := index M;
     columns := fst <$> order;
     values := (λ row, (λ p, default NaN (row !! p.2)) <$> order) <$> values M |}.

(** [M.sort_index()]: rows reordered by label, stably. *)
Definition sort_index_rows (M : Matrix I C) : Matrix I C :=
  let order := sort_by kcmp fst (zip (index M) (values M)) in
  {| index := fst <$> order; columns := columns M; values := snd <$> order |}.
End Pivot.

(** ** The weather table *)

(** A row of the weather file.  The key columns hold a value in every
    row; a measurement is a number, or NaN where the file has none. *)
Record WeatherRecord : Type := {
  city : string;
  month : Z;
  avg_temp : float;
  avg_humidity : float;
  precip : Cell
}.

(** The group key of a row. *)
Definition weather_key (r : WeatherRecord) : string * Z := (city r, month r).

(** [df.groupby(["city", "month"])["avg_temp"].mean().reset_index()]:
    one row per distinct key, keys in sorted order, with the mean of the
    [avg_temp] numbers of the rows that have the key; the group mean
    skips NaN, and is NaN for a key whose rows hold no number. *)
Definition groupby_city_month_mean (df : list WeatherRecord)
  : list (string * Z * float) :=
  (λ k, (k, mean (dropna (avg_temp <$> filter (λ r, weather_key r = k) df))))
    <$> sort_unique kcmp (weather_key <$> df).

(** Lines 57-65 of [plot_weather_heatmap]: the matrix given to
    [sns.heatmap]. *)
Definition weather_heatmap_data (df : list WeatherRecord)
  : result (Matrix string Z) :=
  let monthly_avg := groupby_city_month_mean df in
  match pivot monthly_avg with
  | Ok pivot_table => Ok (sort_index_columns pivot_table)
  | Err e => Err e
  end.

(** ** Numeric coercion ([pd.to_numeric], [fillna]) *)

Inductive errors_mode : Type := errors_raise | errors_coerce.

(** Cell-wise [pd.to_numeric]: [parse] is the library's reading of a string
    token ([None]: not a number; [Some NaN]: a spelling of NaN). *)
Definition to_numeric_cell (parse : string → option float)
    (errors : errors_mode) (c : Cell) : result float :=
  match c with
  | CNum q => Ok (Some q)
  | CNA => Ok NaN
  | CStr s =>
      match parse s with
      | Some v => Ok v
      | None =>
          match errors with
          | errors_raise => Err ValueError_to_numeric
          | errors_coerce => Ok NaN
          end
      end
  end.

Fixpoint to_numeric (parse : string → option float) (errors : errors_mode)
    (col : list Cell) : result (list float) :=
  match col with
  | [] => Ok []
  | c :: col' =>
      match to_numeric_cell parse errors c with
      | Err e => Err e
      | Ok v =>
          match to_numeric parse errors col' with
          | Err e => Err e
          | Ok vs => Ok (v :: vs)
          end
      end
  end.

(** [Series.fillna(x)] on a float column. *)
Definition fillna (x : Q) (col : list float) : list Q :=
  (λ v, default x v) <$> col.

(** ** The scatter renderer's numbers *)

(** [Series.quantile(q)] of a column without NaN, linear interpolation
    between the two neighbouring order statistics. *)
Definition quantile (q : Q) (col : list Q) : float :=
  match sort_by Qcompare id col with
  | [] => NaN
  | (x0 :: _) as sorted =>
      let h := (inject_Z (Z.of_nat (length sorted) - 1) * q)%Q in
      let j := Z.to_nat (Qfloor h) in
      let gamma := (h - inject_Z (Qfloor h))%Q in
      let a := nth j sorted x0 in
      let b := nth (Nat.min (S j) (length sorted - 1)) sorted x0 in
      Some (a + gamma * (b - a))%Q
  end.

(** [matplotlib.colors.Normalize(vmin, vmax, clip=True)(v)]. *)
Definition Normalize (vmin vmax v : Q) : Q :=
  if Qeq_bool vmin vmax then 0%Q
  else
    let clipped := if Qle_bool v vmin then vmin
                   else if Qle_bool vmax v then vmax else v in
    ((clipped - vmin) / (vmax - vmin))%Q.

(** [sns.scatterplot(size=.., sizes=(lo, hi))] with no [size_norm]: the
    numeric size mapping.  The levels are the sorted distinct data values,
    the norm is autoscaled to the smallest and the largest level, and the
    marker area of level [v] is [lo + norm(v) * (hi - lo)]. *)
Definition size_levels (data : list Q) : list Q := sort_unique Qcompare data.

Definition size_lookup_table (sizes : Q * Q) (data : list Q) : list (Q * Q) :=
  let levels := size_levels data in
  match levels with
  | [] => []
  | v0 :: _ =>
      let vmin := v0 in
      let vmax := List.last levels v0 in
      (λ v, (v, (sizes.1 + Normalize vmin vmax v * (sizes.2 - sizes.1))%Q))
        <$> levels
  end.

Fixpoint table_get (v : Q) (table : list (Q * Q)) : float :=
  match table with
  | [] => NaN
  | (k, s) :: table' => if Qeq_bool k v then Some s else table_get v table'
  end.

(** The marker area seaborn gives a data value. *)
Definition marker_size (sizes : Q * Q) (data : list Q) (v : Q) : float :=
  table_get v (size_lookup_table sizes data).

(** [np.linspace(start, stop, num)], endpoint included. *)
Definition linspace (start stop : Q) (num : nat) : list Q :=
  match num with
  | O => []
  | 1%nat => [start]
  | S n =>
      let step := ((stop - start) / inject_Z (Z.of_nat n))%Q in
      (((λ k, (start + inject_Z (Z.of_nat k) * step)%Q) <$> seq 0 n) ++ [stop])%list
  end.

(** Round half to even ([np.rint]). *)
Definition rint (x : Q) : Z :=
  let f := Qfloor x in
  match Qcompare (x - inject_Z f) (1 # 2) with
  | Lt => f
  | Gt => f + 1
  | Eq => if Z.even f then f else f + 1
  end.

(** [np.round(x, 2)]. *)
Definition np_round2 (x : Q) : Q := Qmake (rint (x * 100)) 100.

(** [np.unique]: the sorted distinct values. *)
Definition np_unique (l : list Q) : list Q := sort_unique Qcompare l.

(** [np.interp(v, [x0, x1], [y0, y1])]: linear between the two points,
    constant outside. *)
Definition np_interp2 (v x0 x1 y0 y1 : Q) : Q :=
  if Qle_bool x1 v then y1
  else if Qle_bool v x0 then y0
  else (y0 + (v - x0) / (x1 - x0) * (y1 - y0))%Q.

Definition size_range : Q * Q := (20, 300)%Q.

(** Line 113: [pd.to_numeric(df_plot["precip"], errors="coerce").fillna(0.0)]. *)
Definition coerce_precip (parse : string → option float) (col : list Cell)
  : result (list Q) :=
  match to_numeric parse errors_coerce col with
  | Ok vs => Ok (fillna 0 vs)
  | Err e => Err e
  end.

(** Line 116: the 95th percentile, or 1.0 when no value is present.  After
    [fillna] every value is present, so that is the empty column. *)
Definition max_precip_of (col : list Q) : Q :=
  match col with
  | [] => 1%Q
  | _ => default 1%Q (quantile (19 # 20) col)
  end.

(** Line 153: the reference values of the size legend. *)
Definition ref_values_of (max_precip : Q) : list Q :=
  np_unique (np_round2 <$> linspace 0 max_precip 4).

(** Lines 154-160: the marker area drawn next to each reference value. *)
Definition size_handles_of (max_precip : Q) : list (Q * Q) :=
  (λ v, (v, np_interp2 v 0 max_precip size_range.1 size_range.2))
    <$> ref_values_of max_precip.

(** [list(dict.fromkeys(xs))]: distinct values in first-seen order. *)
Fixpoint first_seen (seen : list string) (xs : list string) : list string :=
  match xs with
  | [] => []
  | x :: xs' =>
      if decide (x ∈ seen) then first_seen seen xs'
      else x :: first_seen (x :: seen) xs'
  end.

(** ** The global anomaly table *)

(** The wide table, column by column: the [Year] column and, under their
    header names, the remaining columns ([columns[1:]]). *)
Record GlobalTable (A : Type) : Type := {
  Year : list Z;
  data_columns : list (string * list A)
}.
Arguments Year {A} _.
Arguments data_columns {A} _.

(** [global_df.replace("***", pd.NA)], cell by cell. *)
Definition replace_sentinel (c : Cell) : Cell :=
  match c with
  | CStr s => if decide (s = "***") then CNA else c
  | _ => c
  end.

(** [pd.to_numeric(col, errors="coerce")] on each column of a list. *)
Fixpoint coerce_columns (parse : string → option float)
    (cols : list (string * list Cell)) : result (list (string * list float)) :=
  match cols with
  | [] => Ok []
  | (name, col) :: cols' =>
      match to_numeric parse errors_coerce col with
      | Err e => Err e
      | Ok vs =>
          match coerce_columns parse cols' with
          | Err e => Err e
          | Ok rest => Ok ((name, vs) :: rest)
          end
      end
  end.

(** Line 284 of [main]: [global_df.replace("***", pd.NA)]. *)
Definition replace_table (raw : GlobalTable Cell) : GlobalTable Cell :=
  {| Year := Year raw;
     data_columns := (λ nc : string * list Cell, (nc.1, replace_sentinel <$> nc.2))
                       <$> data_columns raw |}.

(** Lines 285-286 of [main]: the loop over [global_df.columns[1:]]. *)
Definition coerce_table (parse : string → option float)
    (t : GlobalTable Cell) : result (GlobalTable float) :=
  match coerce_columns parse (data_columns t) with
  | Ok cols => Ok {| Year := Year t; data_columns := cols |}
  | Err e => Err e
  end.

Definition preprocess_global (parse : string → option float)
    (raw : GlobalTable Cell) : result (GlobalTable float) :=
  coerce_table parse (replace_table raw).

Definition months : list string :=
  ["Jan"; "Feb"; "Mar"; "Apr"; "May"; "Jun"; "Jul"; "Aug"; "Sep";
   "Oct"; "Nov"; "Dec"].

Definition month_order : gmap string Z :=
  list_to_map
    [("Jan", 1); ("Feb", 2); ("Mar", 3); ("Apr", 4); ("May", 5); ("Jun", 6);
     ("Jul", 7); ("Aug", 8); ("Sep", 9); ("Oct", 10); ("Nov", 11); ("Dec", 12)].

(** [df[name]] on the columns after [Year]. *)
Fixpoint get_column {A} (name : string) (cols : list (string * list A))
  : result (list A) :=
  match cols with
  | [] => Err (KeyError name)
  | (n, col) :: cols' => if decide (n = name) then Ok col else get_column name cols'
  end.

(** [df.melt(id_vars="Year", value_vars=.., var_name="Month",
    value_name="Anomaly")]: one block of rows per melted column, in the
    order of [value_vars]; inside a block, the rows of the wide table. *)
Fixpoint melt {A} (t : GlobalTable A) (value_vars : list string)
  : result (list (Z * string * A)) :=
  match value_vars with
  | [] => Ok []
  | m :: rest =>
      match get_column m (data_columns t) with
      | Err e => Err e
      | Ok col =>
          match melt t rest with
          | Err e => Err e
          | Ok long => Ok (((λ yv : Z * A, (yv.1, m, yv.2)) <$> zip (Year t) col) ++ long)%list
          end
      end
  end.

(** A column label that may be NaN sorts after every number. *)
Definition option_cmp {A} `{KeyOrder A} (x y : option A) : comparison :=
  match x, y with
  | Some a, Some b => kcmp a b
  | Some _, None => Lt
  | None, Some _ => Gt
  | None, None => Eq
  end.

#[export] Program Instance option_KeyOrder {A} `{KeyOrder A} : KeyOrder (option A) :=
  {| kcmp := option_cmp |}.
Next Obligation.
  intros A HA [a|] [b|]; simpl; try done. rewrite kcmp_eq. naive_solver.
Qed.
Next Obligation. intros A HA [a|] [b|]; simpl; try done. apply kcmp_opp. Qed.
Next Obligation.
  intros A HA [a|] [b|] [c|]; simpl; try done. apply kcmp_lt_trans.
Qed.

(** Lines 192-202 of [plot_global_temp_heatmap]: the matrix given to
    [sns.heatmap].  Rows of the long table are
    (Year, Month, Anomaly, MonthNum). *)
Definition add_MonthNum (long : list (Z * string * float))
  : list (Z * string * float * option Z) :=
  (λ r : Z * string * float, (r, month_order !! r.1.2)) <$> long.

Definition global_heatmap_data (df : GlobalTable float)
  : result (Matrix Z (option Z)) :=
  match melt df months with
  | Err e => Err e
  | Ok df_long =>
      let df_long := add_MonthNum df_long in
      match pivot ((λ r : Z * string * float * option Z, (r.1.1.1, r.2, r.1.2))
                     <$> df_long) with
      | Err e => Err e
      | Ok heatmap_data => Ok (sort_index_rows heatmap_data)
      end
  end.

(** ** The Minnesota table *)

Record MinnesotaRecord : Type := {
  site : string;
  year : Z;
  mo : Z;
  mprecip : Q   (* column [precip] *)
}.

(** A [Timestamp] at midnight, by its calendar fields. *)
Record Timestamp : Type := {
  ts_year : Z;
  ts_month : Z;
  ts_day : Z
}.

Definition is_leap (y : Z) : bool :=
  (y mod 4 =? 0) && (negb (y mod 100 =? 0) || (y mod 400 =? 0)).

Definition days_in_month (y m : Z) : Z :=
  if m =? 2 then (if is_leap y then 29 else 28)
  else if (m =? 4) || (m =? 6) || (m =? 9) || (m =? 11) then 30
  else 31.

(** [datetime(y, m, d)] accepts the date. *)
Definition valid_date (y m d : Z) : bool :=
  (1 <=? y) && (y <=? 9999) && (1 <=? m) && (m <=? 12)
  && (1 <=? d) && (d <=? days_in_month y m).

(** Lexicographic order on calendar dates. *)
Definition date_leb (y1 m1 d1 y2 m2 d2 : Z) : bool :=
  (y1 <? y2) || ((y1 =? y2) && ((m1 <? m2) || ((m1 =? m2) && (d1 <=? d2)))).

(** A midnight is a nanosecond timestamp from 1677-09-22 to 2262-04-11. *)
Definition in_ns_bounds (y m d : Z) : bool :=
  date_leb 1677 9 22 y m d && date_leb y m d 2262 4 11.

(** [pd.to_datetime(dict(year=.., month=.., day=..))] for one row: the
    three units are packed as [year * 10000 + month * 100 + day] and that
    number is read back as a [%Y%m%d] date, here by splitting it into
    year, month and day arithmetically (for a year of four digits this is
    the reading of its decimal digits).  A date the calendar does not
    have, or one outside the nanosecond range, raises. *)
Definition to_datetime_ymd (y m d : Z) : result Timestamp :=
  let packed := y * 10000 + m * 100 + d in
  let Y := packed / 10000 in
  let M := (packed / 100) mod 100 in
  let D := packed mod 100 in
  if valid_date Y M D then
    if in_ns_bounds Y M D then Ok {| ts_year := Y; ts_month := M; ts_day := D |}
    else Err ValueError_assemble   (* out of bounds nanosecond timestamp *)
  else Err ValueError_assemble.

Fixpoint to_datetime_rows (rows : list MinnesotaRecord) : result (list Timestamp) :=
  match rows with
  | [] => Ok []
  | r :: rows' =>
      match to_datetime_ymd (year r) (mo r) 1 with
      | Err e => Err e
      | Ok t =>
          match to_datetime_rows rows' with
          | Err e => Err e
          | Ok ts => Ok (t :: ts)
          end
      end
  end.

(** ** Figures, tables in memory, files *)

Record ScatterPoint : Type := {
  pt_x : float;      (* avg_humidity *)
  pt_y : float;      (* avg_temp *)
  pt_hue : string;   (* city *)
  pt_size : float    (* marker area *)
}.

(** What a renderer hands to the plotting library. *)
Inductive Figure : Type :=
  | WeatherHeatmap (data : Matrix string Z)
  | WeatherScatter (points : list ScatterPoint)
      (city_handles : list (string * nat)) (size_handles : list (Q * Q))
  | GlobalHeatmap (data : Matrix Z (option Z))
  | PrecipLines (rows : list (Timestamp * Q * string)).

(** A DataFrame object. *)
Inductive Frame : Type :=
  | WeatherFrame (rows : list WeatherRecord)
  | GlobalRawFrame (t : GlobalTable Cell)
  | GlobalFrame (t : GlobalTable float)
  | LongFrame (rows : list (Z * string * float))
  | LongNumFrame (rows : list (Z * string * float * option Z))
  | MinnesotaFrame (rows : list MinnesotaRecord)
  | MinnesotaDatedFrame (rows : list (MinnesotaRecord * Timestamp)).

Inductive Node : Type :=
  | Dir
  | CsvFile (table : Frame)   (* a CSV file, by the table [read_csv] makes of it *)
  | PngFile (fig : Figure).

(** The state the script runs in: the file system, by path, and the
    DataFrame objects, by reference. *)
Record World : Type := {
  fs : gmap string Node;
  heap : list Frame
}.

(** The two library behaviours the script depends on and does not fix. *)
Class Backend : Type := {
  str_to_float : string → option float;  (* the float parser of [to_numeric] *)
  render_ok : Figure → bool              (* seaborn/matplotlib draw without raising *)
}.

(** ** Paths ([posixpath]) *)

Definition is_slash (c : ascii) : bool := Ascii.eqb c "/"%char.

Fixpoint has_slash (s : string) : bool :=
  match s with
  | EmptyString => false
  | String c s' => is_slash c || has_slash s'
  end.

Fixpoint all_slashes (s : string) : bool :=
  match s with
  | EmptyString => true
  | String c s' => is_slash c && all_slashes s'
  end.

Fixpoint ends_with_slash (s : string) : bool :=
  match s with
  | EmptyString => false
  | String c EmptyString => is_slash c
  | String _ s' => ends_with_slash s'
  end.

(** [s.rstrip('/')]. *)
Fixpoint rstrip_slashes (s : string) : string :=
  match s with
  | EmptyString => EmptyString
  | String c s' =>
      if all_slashes s then EmptyString else String c (rstrip_slashes s')
  end.

(** [(p[:i], p[i:])] for [i = p.rfind('/') + 1]. *)
Fixpoint rsplit_slash (p : string) : string * string :=
  match p with
  | EmptyString => (EmptyString, EmptyString)
  | String c p' =>
      if has_slash p' then
        let ht := rsplit_slash p' in (String c ht.1, ht.2)
      else if is_slash c then (String c EmptyString, p')
      else (EmptyString, p)
  end.

(** [os.path.split]. *)
Definition path_split (p : string) : string * string :=
  let ht := rsplit_slash p in
  let head := ht.1 in
  (if negb (String.eqb head "") && negb (all_slashes head)
   then rstrip_slashes head else head, ht.2).

(** [os.path.dirname]. *)
Definition dirname (p : string) : string := (path_split p).1.

(** [os.path.join(a, b)]. *)
Definition path_join (a b : string) : string :=
  match b with
  | String c _ =>
      if is_slash c then b
      else if String.eqb a "" || ends_with_slash a then a ++ b
      else a ++ "/" ++ b
  | EmptyString =>
      if String.eqb a "" || ends_with_slash a then a else a ++ "/"
  end.

(** ** Directories ([os.makedirs]) *)

(** The root always exists. *)
Definition is_root (p : string) : bool :=
  negb (String.eqb p "") && all_slashes p.

(** The entry a path names: slashes at its end do not count when the
    system looks it up, and the empty path names nothing. *)
Definition lookup_path (files : gmap string Node) (p : string) : option Node :=
  if String.eqb p "" then None else files !! rstrip_slashes p.

(** [os.path.exists(p)]: a path with a slash at its end leads through
    its entry, which a file does not allow. *)
Definition path_exists (files : gmap string Node) (p : string) : bool :=
  is_root p
  || match lookup_path files p with
     | Some Dir => true
     | Some _ => negb (ends_with_slash p)
     | None => false
     end.

(** [os.path.isdir(p)]. *)
Definition path_isdir (files : gmap string Node) (p : string) : bool :=
  is_root p || match lookup_path files p with Some Dir => true | _ => false end.

(** [os.mkdir(name)]: the empty name is no file; a name in use, whatever
    has it, is refused; a relative name is created in the current
    directory. *)
Definition mkdir (name : string) (files : gmap string Node)
  : result (gmap string Node) :=
  if String.eqb name "" then Err (FileNotFoundError name)
  else if is_root name then Err (FileExistsError name)
  else
    match lookup_path files name with
    | Some _ => Err (FileExistsError name)
    | None =>
        let target := rstrip_slashes name in
        let parent := dirname target in
        if String.eqb parent "" || path_isdir files parent
        then Ok (<[target := Dir]> files)
        else if path_exists files parent then Err (NotADirectoryError name)
        else Err (FileNotFoundError name)
    end.

(** [os.makedirs(name, exist_ok=True)].  Every recursive call is on a
    strictly shorter path, so the length of the path bounds the depth. *)
Fixpoint makedirs_exist_ok (fuel : nat) (name : string) (files : gmap string Node)
  : result (gmap string Node) :=
  let ht := path_split name in
  let ht := if String.eqb ht.2 "" then path_split ht.1 else ht in
  let head := ht.1 in
  let tail := ht.2 in
  let create (files' : gmap string Node) :=
    match mkdir name files' with
    | Ok files'' => Ok files''
    | Err e => if path_isdir files' name then Ok files' else Err e
    end in
  if negb (String.eqb head "") && negb (String.eqb tail "")
     && negb (path_exists files head) then
    match fuel with
    | O => Err (FileNotFoundError name)
    | S fuel' =>
        let made :=
          match makedirs_exist_ok fuel' head files with
          | Ok files' => Ok files'
          | Err (FileExistsError _) => Ok files
          | Err e => Err e
          end in
        match made with
        | Err e => Err e
        | Ok files' => if String.eqb tail "." then Ok files' else create files'
        end
    end
  else create files.

(** ** The script's monad: state and exceptions *)

Definition M (A : Type) : Type := World → result (A * World).

#[export] Instance M_ret : MRet M := λ A a w, Ok (a, w).
#[export] Instance M_bind : MBind M := λ A B f m w,
  match m w with
  | Ok (a, w') => f a w'
  | Err e => Err e
  end.

Definition raise {A} (e : error) : M A := λ _, Err e.

(** A pure library call that may raise. *)
Definition lift {A} (r : result A) : M A := λ w,
  match r with
  | Ok a => Ok (a, w)
  | Err e => Err e
  end.

(** A new DataFrame object. *)
Definition alloc (f : Frame) : M nat := λ w,
  Ok (length (heap w), {| fs := fs w; heap := heap w ++ [f] |}).

(** The table behind a reference. *)
Definition deref (r : nat) : M Frame := λ w,
  match heap w !! r with
  | Some f => Ok (f, w)
  | None => Err TypeError_frame
  end.

(** In-place update of the object behind a reference ([df[col] = ...]). *)
Definition store (r : nat) (f : Frame) : M unit := λ w,
  Ok (tt, {| fs := fs w; heap := <[r := f]> (heap w) |}).

(** [df.copy()]. *)
Definition frame_copy (r : nat) : M nat := f ← deref r; alloc f.

(** [pd.read_csv(path)]. *)
Definition read_csv (path : string) : M nat := λ w,
  match fs w !! path with
  | Some (CsvFile table) => alloc table w
  | Some Dir => Err (IsADirectoryError path)
  | Some (PngFile _) => Err TypeError_frame
  | None => Err (FileNotFoundError path)
  end.

(** Drawing the figure and [plt.savefig(fname)]: the directory of [fname]
    has to exist. *)
Definition savefig `{Backend} (fname : string) (fig : Figure) : M unit := λ w,
  if render_ok fig then
    if path_isdir (fs w) (dirname fname) then
      match fs w !! fname with
      | Some Dir => Err (IsADirectoryError fname)
      | _ => Ok (tt, {| fs := <[fname := PngFile fig]> (fs w); heap := heap w |})
      end
    else Err (FileNotFoundError fname)
  else Err RenderError.

(** ** The functions of the script *)

Definition ensure_output_dir (path : string) : M unit := λ w,
  match makedirs_exist_ok (String.length path) path (fs w) with
  | Ok files => Ok (tt, {| fs := files; heap := heap w |})
  | Err e => Err e
  end.

Definition plot_weather_heatmap `{Backend} (df : nat) (outdir : string) : M string :=
  frame ← deref df;
  match frame with
  | WeatherFrame rows =>
      pivot_table ← lift (weather_heatmap_data rows);
      let fname := path_join outdir "weather_heatmap.png" in
      savefig fname (WeatherHeatmap pivot_table);;
      mret fname
  | _ => raise (KeyError "city")
  end.

Definition set_precip (r : WeatherRecord) (p : Q) : WeatherRecord :=
  {| city := city r; month := month r; avg_temp := avg_temp r;
     avg_humidity := avg_humidity r; precip := CNum p |}.

(** The data behind the scatter figure: the points with their marker
    areas, the colour legend and the size legend. *)
Definition scatter_figure (rows : list WeatherRecord) (precip_col : list Q) : Figure :=
  let max_precip := max_precip_of precip_col in
  let points :=
    zip_with (λ r p, {| pt_x := avg_humidity r; pt_y := avg_temp r;
                        pt_hue := city r;
                        pt_size := marker_size size_range precip_col p |})
      rows precip_col in
  let city_names := first_seen [] (city <$> rows) in
  let n_colors := length city_names in
  let city_handles := imap (λ i c, (c, i mod n_colors)%nat) city_names in
  WeatherScatter points city_handles (size_handles_of max_precip).

Definition plot_weather_scatter `{Backend} (df : nat) (outdir : string) : M string :=
  df_plot ← frame_copy df;
  frame ← deref df_plot;
  match frame with
  | WeatherFrame rows =>
      precip_col ← lift (coerce_precip str_to_float (precip <$> rows));
      store df_plot (WeatherFrame (zip_with set_precip rows precip_col));;
      let fname := path_join outdir "weather_scatter.png" in
      savefig fname (scatter_figure rows precip_col);;
      mret fname
  | _ => raise (KeyError "precip")
  end.

Definition plot_global_temp_heatmap `{Backend} (df : nat) (outdir : string) : M string :=
  frame ← deref df;
  match frame with
  | GlobalFrame t =>
      long ← lift (melt t months);
      df_long ← alloc (LongFrame long);
      store df_long (LongNumFrame (add_MonthNum long));;
      heatmap_data ← lift (global_heatmap_data t);
      let fname := path_join outdir "global_temp_heatmap.png" in
      savefig fname (GlobalHeatmap heatmap_data);;
      mret fname
  | _ => raise (KeyError "Year")
  end.

Definition plot_minnesota_precip_line `{Backend} (df : nat) (outdir : string) : M string :=
  df_plot ← frame_copy df;
  frame ← deref df_plot;
  match frame with
  | MinnesotaFrame rows =>
      dates ← lift (to_datetime_rows rows);
      store df_plot (MinnesotaDatedFrame (zip rows dates));;
      let fname := path_join outdir "minnesota_precip_line.png" in
      savefig fname
        (PrecipLines ((λ rt : MinnesotaRecord * Timestamp,
                         (rt.2, mprecip rt.1, site rt.1)) <$> zip rows dates));;
      mret fname
  | _ => raise (KeyError "year")
  end.

(** Lines 284-286 of [main]: [replace] makes a new table, the loop then
    assigns its columns in place. *)
Definition load_global `{Backend} (global_df : nat) : M nat :=
  frame ← deref global_df;
  match frame with
  | GlobalRawFrame raw =>
      let replaced := replace_table raw in
      global_df ← alloc (GlobalRawFrame replaced);
      t ← lift (coerce_table str_to_float replaced);
      store global_df (GlobalFrame t);;
      mret global_df
  | _ => raise TypeError_frame
  end.

(** [main], given [os.path.abspath(__file__)]. *)
Definition main `{Backend} (script_path : string) : M (list string) :=
  let base_dir := dirname (dirname script_path) in
  let data_dir := path_join base_dir "data" in
  let out_dir := path_join base_dir "output" in
  ensure_output_dir out_dir;;
  let weather_path := path_join data_dir "weather_data.csv" in
  weather_df ← read_csv weather_path;
  f1 ← plot_weather_heatmap weather_df out_dir;
  f2 ← plot_weather_scatter weather_df out_dir;
  let global_path := path_join data_dir "global_temp.csv" in
  global_df ← read_csv global_path;
  global_df ← load_global global_df;
  f3 ← plot_global_temp_heatmap global_df out_dir;
  let minn_path := path_join data_dir "minnesota_weather.csv" in
  minn_df ← read_csv minn_path;
  f4 ← plot_minnesota_precip_line minn_df out_dir;
  mret [f1; f2; f3; f4].

(** * Properties *)

(** ** Sorted axes *)

(** Facts that hold for any comparison that is antisymmetric and whose
    [Lt] is transitive: label orders and the order of the rationals. *)
Section CmpFacts.
Context {K : Type} (cmp : K → K → comparison).
Hypothesis cmp_opp : ∀ x y, cmp y x = CompOpp (cmp x y).
Hypothesis cmp_lt_trans : ∀ x y z, cmp x y = Lt → cmp y z = Lt → cmp x z = Lt.
Implicit Types (x y : K) (l : list K).

Definition cmp_lt x y : Prop := cmp x y = Lt.

Lemma elem_of_insert_uniq_inv x y l :
  y ∈ insert_uniq cmp x l → y = x ∨ y ∈ l.
Proof using Type.
  induction l as [|z l IH]; simpl.
  - rewrite list_elem_of_singleton. tauto.
  - destruct (cmp x z); rewrite ?elem_of_cons; [tauto..|].
    intros [->|Hy]; [tauto|]. destruct (IH Hy); tauto.
Qed.

Lemma insert_uniq_keeps x y l : y ∈ l → y ∈ insert_uniq cmp x l.
Proof using Type.
  induction l as [|z l IH]; simpl; [by rewrite elem_of_nil|].
  destruct (cmp x z); rewrite ?elem_of_cons; [tauto..|].
  intros [->|Hy]; [tauto|]. right. by apply IH.
Qed.

Lemma insert_uniq_covers x l :
  ∃ v, v ∈ insert_uniq cmp x l ∧ (v = x ∨ cmp x v = Eq).
Proof using Type.
  induction l as [|z l IH]; simpl.
  - exists x. split; [by left|by left].
  - destruct (cmp x z) eqn:E.
    + exists z. split; [by left|by right].
    + exists x. split; [by left|by left].
    + destruct IH as (v & Hv & Hx). exists v. split; [by right|done].
Qed.

Lemma elem_of_sort_unique_inv y l : y ∈ sort_unique cmp l → y ∈ l.
Proof using Type.
  induction l as [|x l IH]; simpl; [done|].
  intros [->|Hy]%elem_of_insert_uniq_inv; [by left|]. right. by apply IH.
Qed.

Lemma sort_unique_covers x l :
  x ∈ l → ∃ v, v ∈ sort_unique cmp l ∧ (v = x ∨ cmp x v = Eq).
Proof using Type.
  induction l as [|z l IH]; simpl; [by rewrite elem_of_nil|].
  intros [->|Hx]%elem_of_cons; [apply insert_uniq_covers|].
  destruct (IH Hx) as (v & Hv & Hxv). exists v. split; [|done].
  by apply insert_uniq_keeps.
Qed.

Lemma length_insert_uniq x l :
  (1 ≤ length (insert_uniq cmp x l) ≤ S (length l))%nat.
Proof using Type.
  induction l as [|z l IH]; simpl; [lia|]. destruct (cmp x z); simpl; lia.
Qed.

Lemma length_sort_unique l :
  (length (sort_unique cmp l) ≤ length l)%nat
  ∧ (l ≠ [] → 1 ≤ length (sort_unique cmp l))%nat.
Proof using Type.
  induction l as [|x l [IH _]]; simpl; [done|].
  pose proof (length_insert_uniq x (sort_unique cmp l)). split; [lia|]. intros _. lia.
Qed.

Lemma insert_uniq_sorted_cmp x l :
  StronglySorted cmp_lt l → StronglySorted cmp_lt (insert_uniq cmp x l).
Proof using cmp_opp cmp_lt_trans.
  induction 1 as [|z l Hl IH Hz]; simpl.
  - repeat constructor.
  - destruct (cmp x z) eqn:E.
    + by constructor.
    + constructor; [by constructor|]. constructor; [done|].
      eapply Forall_impl; [exact Hz|]. intros w Hw. by eapply cmp_lt_trans.
    + constructor; [done|]. apply Forall_forall. intros w Hw.
      apply elem_of_insert_uniq_inv in Hw as [->|Hw].
      * unfold cmp_lt. by rewrite (cmp_opp x z), E.
      * by eapply Forall_forall in Hz.
Qed.

Lemma sort_unique_sorted_cmp l : StronglySorted cmp_lt (sort_unique cmp l).
Proof using cmp_opp cmp_lt_trans.
  induction l as [|x l IH]; simpl; [constructor|]. by apply insert_uniq_sorted_cmp.
Qed.

(** Sorting what is already in strictly increasing order changes nothing. *)
Lemma sort_unique_fixed l : StronglySorted cmp_lt l → sort_unique cmp l = l.
Proof using Type.
  induction 1 as [|x l Hl IH Hx]; simpl; [done|]. rewrite IH.
  destruct l as [|y l]; simpl; [done|].
  inversion Hx as [|? ? Hlt _]; subst. unfold cmp_lt in Hlt. by rewrite Hlt.
Qed.

Lemma sort_by_sorted_cmp {A} (key : A → K) (rows : list A) :
  StronglySorted cmp_lt (key <$> rows) → sort_by cmp key rows = rows.
Proof using Type.
  induction rows as [|r rows IH]; simpl; [done|].
  intros Hs. inversion Hs as [|? ? Hs' Hr]; subst.
  rewrite IH by done. destruct rows as [|r' rows]; simpl; [done|].
  inversion Hr as [|? ? Hlt _]; subst. unfold cmp_lt in Hlt. by rewrite Hlt.
Qed.
End CmpFacts.

Section SortFacts.
Context {K : Type} `{KeyOrder K}.
Implicit Types (x y : K) (l : list K).

Lemma kcmp_refl x : kcmp x x = Eq.
Proof. by apply kcmp_eq. Qed.

Lemma klt_irrefl x : ¬ klt x x.
Proof. unfold klt. by rewrite kcmp_refl. Qed.

Lemma elem_of_sort_unique y l : y ∈ sort_unique kcmp l ↔ y ∈ l.
Proof.
  split; [apply elem_of_sort_unique_inv|]. intros Hy.
  destruct (sort_unique_covers kcmp y l Hy) as (v & Hv & [->|Heq]); [done|].
  by apply kcmp_eq in Heq as ->.
Qed.

Lemma sort_unique_sorted l : StronglySorted klt (sort_unique kcmp l).
Proof. apply sort_unique_sorted_cmp; [apply kcmp_opp|apply kcmp_lt_trans]. Qed.

Lemma sorted_NoDup l : StronglySorted klt l → NoDup l.
Proof.
  induction 1 as [|z l Hl IH Hz]; constructor; [|done].
  intros Hin. eapply Forall_forall in Hz; [|done]. by apply klt_irrefl in Hz.
Qed.

Lemma sort_unique_NoDup l : NoDup (sort_unique kcmp l).
Proof. apply sorted_NoDup, sort_unique_sorted. Qed.

Lemma sort_by_sorted {A} (key : A → K) (rows : list A) :
  StronglySorted klt (key <$> rows) → sort_by kcmp key rows = rows.
Proof. apply sort_by_sorted_cmp. Qed.

Lemma index_of_lookup x l j : index_of kcmp x l = Some j → l !! j = Some x.
Proof.
  revert j. induction l as [|z l IH]; intros j; simpl; [done|].
  destruct (kcmp x z) eqn:E.
  - apply kcmp_eq in E as ->. by intros [= <-].
  - destruct (index_of kcmp x l); simpl; [|done]. intros [= <-]. by apply IH.
  - destruct (index_of kcmp x l); simpl; [|done]. intros [= <-]. by apply IH.
Qed.

Lemma index_of_elem x l : x ∈ l → is_Some (index_of kcmp x l).
Proof.
  induction 1 as [z l|z w l Hin IH]; simpl.
  - rewrite kcmp_refl. by eexists.
  - destruct (kcmp z w); [by eexists| |]; destruct IH as [j ->]; by eexists.
Qed.
End SortFacts.

(** ** Pivot tables *)

Section PivotFacts.
Context {I C : Type} `{KeyOrder I, KeyOrder C}.
Context `{EqDecision I, EqDecision C}.
Implicit Types (long : list (I * C * float)) (M : Matrix I C).

Lemma lookup_cell_elem long i c v :
  NoDup (fst <$> long) → (i, c, v) ∈ long → lookup_cell i c long = v.
Proof.
  induction long as [|[[i' c'] v'] long IH]; simpl; intros Hnd Hin.
  - by apply elem_of_nil in Hin.
  - apply NoDup_cons in Hnd as [Hnotin Hnd].
    apply elem_of_cons in Hin as [[= -> -> ->]|Hin].
    + by rewrite decide_True.
    + destruct (decide (i' = i ∧ c' = c)) as [[-> ->]|_]; [|by apply IH].
      destruct Hnotin. apply list_elem_of_fmap. by exists (i, c, v).
Qed.

Lemma lookup_cell_absent long i c :
  (i, c) ∉ fst <$> long → lookup_cell i c long = NaN.
Proof.
  induction long as [|[[i' c'] v'] long IH]; simpl; intros Hnotin; [done|].
  apply not_elem_of_cons in Hnotin as [Hne Hnotin].
  destruct (decide (i' = i ∧ c' = c)) as [[-> ->]|_]; [done|by apply IH].
Qed.

Lemma pivot_NoDup long :
  NoDup (fst <$> long) →
  pivot long =
    Ok {| index := sort_unique kcmp ((λ t, t.1.1) <$> long);
          columns := sort_unique kcmp ((λ t, t.1.2) <$> long);
          values := (λ i, (λ c, lookup_cell i c long)
                            <$> sort_unique kcmp ((λ t, t.1.2) <$> long))
                      <$> sort_unique kcmp ((λ t, t.1.1) <$> long) |}.
Proof. intros Hnd. unfold pivot. by rewrite decide_True. Qed.

Lemma pivot_dup long :
  ¬ NoDup (fst <$> long) → pivot long = Err ValueError_duplicate_entries.
Proof. intros Hnd. unfold pivot. by rewrite decide_False. Qed.

(** Reading a matrix that was filled cell by cell from its labels. *)
Lemma loc_tabulate (idx : list I) (cols : list C) (f : I → C → float) i c :
  i ∈ idx → c ∈ cols →
  loc {| index := idx; columns := cols;
         values := (λ i, f i <$> cols) <$> idx |} i c = Some (f i c).
Proof.
  intros [j Hj]%index_of_elem [k Hk]%index_of_elem. unfold loc; simpl.
  rewrite Hj, Hk; simpl.
  apply index_of_lookup in Hj, Hk.
  rewrite list_lookup_fmap, Hj; simpl. by rewrite list_lookup_fmap, Hk.
Qed.

Lemma regather_row (row : list float) (cols : list C) :
  length row = length cols →
  (λ p : C * nat, default NaN (row !! p.2)) <$> zip cols (seq 0 (length cols)) = row.
Proof.
  intros Hlen. apply list_eq. intros k.
  rewrite list_lookup_fmap.
  destruct (decide (k < length cols)%nat) as [Hk|Hk].
  - destruct (lookup_lt_is_Some_2 cols k Hk) as [c Hc].
    destruct (lookup_lt_is_Some_2 row k ltac:(lia)) as [v Hv].
    assert (zip cols (seq 0 (length cols)) !! k = Some (c, k)) as ->.
    { apply lookup_zip_with_Some. exists c, k. split_and!; [done..|].
      by apply lookup_seq. }
    simpl. by rewrite Hv.
  - rewrite (lookup_ge_None_2 row) by lia.
    rewrite lookup_ge_None_2; [done|].
    rewrite length_zip_with, length_seq. lia.
Qed.

Lemma sort_index_columns_sorted M :
  StronglySorted klt (columns M) →
  Forall (λ row, length row = length (columns M)) (values M) →
  sort_index_columns M = M.
Proof.
  intros Hs Hrows. destruct M as [idx cols vals]; simpl in *.
  unfold sort_index_columns; simpl.
  assert (fst <$> zip cols (seq 0 (length cols)) = cols) as Hfst.
  { apply fst_zip. rewrite length_seq. lia. }
  rewrite sort_by_sorted by (by rewrite Hfst).
  rewrite Hfst. f_equal.
  induction Hrows as [|row vals Hrow _ IH]; [done|].
  rewrite fmap_cons, IH. f_equal. by apply regather_row.
Qed.

Lemma sort_index_rows_sorted M :
  StronglySorted klt (index M) →
  length (values M) = length (index M) →
  sort_index_rows M = M.
Proof.
  intros Hs Hlen. destruct M as [idx cols vals]; simpl in *.
  unfold sort_index_rows; simpl.
  assert (fst <$> zip idx vals = idx) as Hfst by (apply fst_zip; lia).
  rewrite sort_by_sorted by (by rewrite Hfst).
  rewrite Hfst, snd_zip by lia. done.
Qed.
End PivotFacts.

(** ** The weather heatmap (lines 57-65) *)

Lemma groupby_keys (df : list WeatherRecord) :
  fst <$> groupby_city_month_mean df = sort_unique kcmp (weather_key <$> df).
Proof.
  unfold groupby_city_month_mean. rewrite <- list_fmap_compose.
  apply list_fmap_id.
Qed.

Lemma groupby_keys_NoDup (df : list WeatherRecord) :
  NoDup (fst <$> groupby_city_month_mean df).
Proof. rewrite groupby_keys. apply sort_unique_NoDup. Qed.

Lemma filter_key_nil (df : list WeatherRecord) (k : string * Z) :
  k ∉ weather_key <$> df → filter (λ r, weather_key r = k) df = [].
Proof.
  intros Hk. induction df as [|r df IH]; [done|].
  rewrite fmap_cons in Hk. apply not_elem_of_cons in Hk as [Hne Hk].
  rewrite filter_cons_False by done. by apply IH.
Qed.

(** The long table holds, for every key, the mean of the rows with that
    key, and reads as NaN at a key no row has. *)
Lemma groupby_lookup (df : list WeatherRecord) (c : string) (m : Z) :
  lookup_cell c m (groupby_city_month_mean df)
  = mean (dropna (avg_temp <$> filter (λ r, city r = c ∧ month r = m) df)).
Proof.
  assert (filter (λ r, city r = c ∧ month r = m) df
          = filter (λ r, weather_key r = (c, m)) df) as ->.
  { apply list_filter_iff. intros r. unfold weather_key.
    split; [by intros [-> ->]|by intros [= -> ->]]. }
  destruct (decide ((c, m) ∈ weather_key <$> df)) as [Hin|Hnotin].
  - apply lookup_cell_elem; [apply groupby_keys_NoDup|].
    unfold groupby_city_month_mean. apply list_elem_of_fmap.
    exists (c, m). split; [done|]. by apply elem_of_sort_unique.
  - rewrite lookup_cell_absent.
    + by rewrite filter_key_nil.
    + rewrite groupby_keys. by rewrite elem_of_sort_unique.
Qed.

Lemma groupby_cities (df : list WeatherRecord) :
  (λ t : string * Z * float, t.1.1) <$> groupby_city_month_mean df
  = fst <$> sort_unique kcmp (weather_key <$> df).
Proof. unfold groupby_city_month_mean. by rewrite <- list_fmap_compose. Qed.

Lemma groupby_months (df : list WeatherRecord) :
  (λ t : string * Z * float, t.1.2) <$> groupby_city_month_mean df
  = snd <$> sort_unique kcmp (weather_key <$> df).
Proof. unfold groupby_city_month_mean. by rewrite <- list_fmap_compose. Qed.

Lemma elem_of_key_cities (df : list WeatherRecord) (c : string) :
  c ∈ fst <$> sort_unique kcmp (weather_key <$> df) ↔ ∃ r, r ∈ df ∧ city r = c.
Proof.
  rewrite list_elem_of_fmap. split.
  - intros ([c' m] & -> & Hk). apply elem_of_sort_unique, list_elem_of_fmap in Hk.
    destruct Hk as (r & [= -> ->] & Hr). by exists r.
  - intros (r & Hr & <-). exists (weather_key r). split; [done|].
    apply elem_of_sort_unique, list_elem_of_fmap. by exists r.
Qed.

Lemma elem_of_key_months (df : list WeatherRecord) (m : Z) :
  m ∈ snd <$> sort_unique kcmp (weather_key <$> df) ↔ ∃ r, r ∈ df ∧ month r = m.
Proof.
  rewrite list_elem_of_fmap. split.
  - intros ([c m'] & -> & Hk). apply elem_of_sort_unique, list_elem_of_fmap in Hk.
    destruct Hk as (r & [= -> ->] & Hr). by exists r.
  - intros (r & Hr & <-). exists (weather_key r). split; [done|].
    apply elem_of_sort_unique, list_elem_of_fmap. by exists r.
Qed.

Lemma klt_Z_lt (l : list Z) : StronglySorted klt l → StronglySorted Z.lt l.
Proof. induction 1; constructor; [done|]. eapply Forall_impl; [done|]. by intros. Qed.

(** The matrix, spelled out. *)
Lemma weather_heatmap_data_eq (df : list WeatherRecord) :
  let keys := sort_unique kcmp (weather_key <$> df) in
  weather_heatmap_data df =
    Ok {| index := sort_unique kcmp (fst <$> keys);
          columns := sort_unique kcmp (snd <$> keys);
          values := (λ c, (λ m, lookup_cell c m (groupby_city_month_mean df))
                            <$> sort_unique kcmp (snd <$> keys))
                      <$> sort_unique kcmp (fst <$> keys) |}.
Proof.
  intros keys. unfold weather_heatmap_data.
  rewrite pivot_NoDup by apply groupby_keys_NoDup.
  rewrite groupby_cities, groupby_months. fold keys.
  rewrite sort_index_columns_sorted; [done|apply sort_unique_sorted|].
  cbn [values columns]. apply Forall_fmap, Forall_true. intros c.
  unfold compose. by rewrite length_fmap.
Qed.

Lemma dropna_all_present (l : list float) :
  Forall (λ v, v ≠ NaN) l → Some <$> dropna l = l.
Proof.
  unfold dropna. induction 1 as [|[q|] l Hv _ IH]; [done| |done].
  cbn. fold (omap id l). by rewrite IH.
Qed.

(** C1.  For every weather table, the matrix behind the heatmap is built
    (no error), has one row per distinct city of the table and one column
    per distinct month of the table, the columns in increasing order, and
    its cell at city [c] and month [m] is the arithmetic mean of the
    [avg_temp] numbers of exactly the rows of that city and month: their
    sum divided by their count, NaN (a blank cell) when there is none, so
    in particular when the table has no such row.  A row without a
    reading has no number to give and is skipped; where every row of the
    group has a reading, the mean is over all rows of the group. *)
Theorem weather_heatmap_matrix (df : list WeatherRecord) :
  ∃ M : Matrix string Z,
    weather_heatmap_data df = Ok M
    ∧ NoDup (index M)
    ∧ (∀ c, c ∈ index M ↔ ∃ r, r ∈ df ∧ city r = c)
    ∧ StronglySorted Z.lt (columns M)
    ∧ (∀ m, m ∈ columns M ↔ ∃ r, r ∈ df ∧ month r = m)
    ∧ length (values M) = length (index M)
    ∧ Forall (λ row, length row = length (columns M)) (values M)
    ∧ ∀ c m, c ∈ index M → m ∈ columns M →
        let group := filter (λ r, city r = c ∧ month r = m) df in
        let temps := dropna (avg_temp <$> group) in
        loc M c m = Some (mean temps)
        ∧ (group = [] → loc M c m = Some NaN)
        ∧ (temps = [] → loc M c m = Some NaN)
        ∧ (temps ≠ [] →
           loc M c m = Some (Some (Qsum temps
                                   / inject_Z (Z.of_nat (length temps)))%Q))
        ∧ (Forall (λ r, avg_temp r ≠ NaN) group →
           avg_temp <$> group = Some <$> temps
           ∧ length temps = length group).
Proof.
  eexists. split; [apply weather_heatmap_data_eq|]. cbn [index columns values].
  split_and!.
  - apply sort_unique_NoDup.
  - intros c. by rewrite elem_of_sort_unique, elem_of_key_cities.
  - apply klt_Z_lt, sort_unique_sorted.
  - intros m. by rewrite elem_of_sort_unique, elem_of_key_months.
  - by rewrite length_fmap.
  - apply Forall_fmap, Forall_true. intros c. unfold compose.
    by rewrite length_fmap.
  - intros c m Hc Hm.
    set (group := filter (λ r, city r = c ∧ month r = m) df).
    set (temps := dropna (avg_temp <$> group)).
    assert (loc {| index := sort_unique kcmp (fst <$> sort_unique kcmp (weather_key <$> df));
                   columns := sort_unique kcmp (snd <$> sort_unique kcmp (weather_key <$> df));
                   values := (λ c, (λ m, lookup_cell c m (groupby_city_month_mean df))
                               <$> sort_unique kcmp (snd <$> sort_unique kcmp (weather_key <$> df)))
                             <$> sort_unique kcmp (fst <$> sort_unique kcmp (weather_key <$> df)) |}
              c m = Some (mean temps)) as Hloc.
    { rewrite (loc_tabulate _ _ (λ c m, lookup_cell c m (groupby_city_month_mean df)))
        by done.
      by rewrite groupby_lookup. }
    split_and!; [done| | | |].
    + intros Hg. rewrite Hloc. unfold temps. by rewrite Hg.
    + intros Ht. by rewrite Hloc, Ht.
    + intros Ht. rewrite Hloc. by destruct temps.
    + intros Hall.
      assert (Some <$> temps = avg_temp <$> group) as Heq.
      { apply dropna_all_present. by apply Forall_fmap. }
      split; [done|].
      by rewrite <- (length_fmap Some temps), Heq, length_fmap.
Qed.

(** C8.  The long table that the group-by hands to the pivot never holds
    a (city, month) pair twice, whatever the input rows are, so the pivot
    inside the weather heatmap returns a matrix and its duplicate-entries
    error cannot occur. *)
Theorem weather_pivot_no_duplicate_error (df : list WeatherRecord) :
  NoDup ((λ t : string * Z * float, (t.1.1, t.1.2)) <$> groupby_city_month_mean df)
  ∧ (∃ M, pivot (groupby_city_month_mean df) = Ok M)
  ∧ weather_heatmap_data df ≠ Err ValueError_duplicate_entries.
Proof.
  split_and!.
  - assert ((λ t : string * Z * float, (t.1.1, t.1.2)) <$> groupby_city_month_mean df
            = fst <$> groupby_city_month_mean df) as ->.
    { apply list_fmap_ext. intros i t _. by destruct t as [[c m] v]. }
    apply groupby_keys_NoDup.
  - eexists. apply pivot_NoDup, groupby_keys_NoDup.
  - by rewrite weather_heatmap_data_eq.
Qed.

(** ** Numeric coercion *)

(** What [errors="coerce"] makes of a cell. *)
Definition coerced (parse : string → option float) (c : Cell) : float :=
  match c with
  | CNum q => Some q
  | CNA => NaN
  | CStr s => default NaN (parse s)
  end.

Lemma to_numeric_cell_coerce parse c :
  to_numeric_cell parse errors_coerce c = Ok (coerced parse c).
Proof. destruct c as [q|s|]; simpl; [done| |done]. by destruct (parse s). Qed.

(** With [errors="coerce"] the coercion of a column always returns. *)
Lemma to_numeric_coerce parse (col : list Cell) :
  to_numeric parse errors_coerce col = Ok (coerced parse <$> col).
Proof.
  induction col as [|c col IH]; simpl; [done|].
  by rewrite to_numeric_cell_coerce, IH.
Qed.

(** With [errors="raise"] a token that is not a number is an error. *)
Lemma to_numeric_raise parse (s : string) (col : list Cell) :
  parse s = None →
  to_numeric parse errors_raise (CStr s :: col) = Err ValueError_to_numeric.
Proof. intros Hs. simpl. by rewrite Hs. Qed.

Lemma coerce_columns_total parse (cols : list (string * list Cell)) :
  coerce_columns parse cols
  = Ok ((λ nc : string * list Cell, (nc.1, coerced parse <$> nc.2)) <$> cols).
Proof.
  induction cols as [|[name col] cols IH]; simpl; [done|].
  by rewrite to_numeric_coerce, IH.
Qed.

(** The value a raw cell of the anomaly table has after lines 284-286. *)
Definition preprocessed (parse : string → option float) (c : Cell) : float :=
  coerced parse (replace_sentinel c).

Lemma preprocess_global_total parse (raw : GlobalTable Cell) :
  preprocess_global parse raw
  = Ok {| Year := Year raw;
          data_columns := (λ nc : string * list Cell, (nc.1, preprocessed parse <$> nc.2))
                            <$> data_columns raw |}.
Proof.
  unfold preprocess_global, coerce_table, replace_table; simpl.
  rewrite coerce_columns_total. do 2 f_equal.
  rewrite <- list_fmap_compose. apply list_fmap_ext. intros i [name col] _; simpl.
  by rewrite <- list_fmap_compose.
Qed.

Lemma coerce_precip_total parse (col : list Cell) :
  coerce_precip parse col = Ok (fillna 0 (coerced parse <$> col)).
Proof. unfold coerce_precip. by rewrite to_numeric_coerce. Qed.

(** C5.  In the scatter renderer the coercion of the precipitation column
    always returns, keeps one value per input row, replaces every cell
    that is not a number (a token the parser rejects, a token it reads as
    NaN, a missing cell) by exactly 0, and leaves every number, and every
    token that reads as a number, at its value.  The table that is
    plotted and the list of points have the length of the input. *)
Theorem scatter_precip_coercion `{Backend} (rows : list WeatherRecord) :
  ∃ precip_col : list Q,
    coerce_precip str_to_float (precip <$> rows) = Ok precip_col
    ∧ length precip_col = length rows
    ∧ length (zip_with set_precip rows precip_col) = length rows
    ∧ (∀ i r, rows !! i = Some r →
         precip_col !! i =
           Some match precip r with
                | CNum q => q
                | CStr s =>
                    match str_to_float s with
                    | Some (Some q) => q
                    | Some None | None => 0%Q
                    end
                | CNA => 0%Q
                end
         ∧ zip_with set_precip rows precip_col !! i
           = (λ p, set_precip r p) <$> precip_col !! i)
    ∧ ∀ pts ch sh, scatter_figure rows precip_col = WeatherScatter pts ch sh →
        length pts = length rows.
Proof.
  exists (fillna 0 (coerced str_to_float <$> (precip <$> rows))).
  assert (length (fillna 0 (coerced str_to_float <$> (precip <$> rows)))
          = length rows) as Hlen.
  { unfold fillna. by rewrite !length_fmap. }
  split_and!.
  - apply coerce_precip_total.
  - done.
  - rewrite length_zip_with. lia.
  - intros i r Hr.
    assert (fillna 0 (coerced str_to_float <$> (precip <$> rows)) !! i
            = Some (default 0%Q (coerced str_to_float (precip r)))) as Hi.
    { unfold fillna. by rewrite !list_lookup_fmap, Hr. }
    split.
    + rewrite Hi. f_equal. destruct (precip r) as [q|s|]; simpl; [done| |done].
      by destruct (str_to_float s) as [[q|]|].
    + rewrite Hi. simpl. apply lookup_zip_with_Some. eauto.
  - intros pts ch sh [= <- _ _]. rewrite length_zip_with. lia.
Qed.

(** C7.  The preprocessing of the anomaly table (lines 284-286) always
    returns a table: the coercion never raises.  It keeps the years, the
    column names and the column lengths, and turns every cell that is not
    a number into NaN: the sentinel, a missing cell and any other token
    the parser rejects alike. *)
Theorem global_coercion_never_fails `{Backend} (raw : GlobalTable Cell) :
  ∃ t : GlobalTable float,
    preprocess_global str_to_float raw = Ok t
    ∧ Year t = Year raw
    ∧ (data_columns t).*1 = (data_columns raw).*1
    ∧ ∀ j name col, data_columns raw !! j = Some (name, col) →
        ∃ col', data_columns t !! j = Some (name, col')
          ∧ length col' = length col
          ∧ ∀ i c, col !! i = Some c →
              (c = CStr "***" → col' !! i = Some NaN)
              ∧ (c = CNA → col' !! i = Some NaN)
              ∧ (∀ s, c = CStr s → str_to_float s = None → col' !! i = Some NaN)
              ∧ (∀ q, c = CNum q → col' !! i = Some (Some q))
              ∧ (∀ s v, c = CStr s → s ≠ "***" → str_to_float s = Some v →
                   col' !! i = Some v).
Proof.
  eexists. split; [apply preprocess_global_total|]. cbn [Year data_columns].
  split_and!.
  - done.
  - rewrite <- list_fmap_compose. by apply list_fmap_ext.
  - intros j name col Hj. exists (preprocessed str_to_float <$> col).
    split_and!.
    + by rewrite list_lookup_fmap, Hj.
    + by rewrite length_fmap.
    + intros i c Hc.
      assert ((preprocessed str_to_float <$> col) !! i
              = Some (preprocessed str_to_float c)) as Hi.
      { by rewrite list_lookup_fmap, Hc. }
      split_and!.
      * intros ->. by rewrite Hi.
      * intros ->. by rewrite Hi.
      * intros s -> Hs. rewrite Hi. unfold preprocessed. simpl.
        destruct (decide (s = "***")); simpl; [done|]. by rewrite Hs.
      * intros q ->. rewrite Hi. reflexivity.
      * intros s v -> Hne Hs. rewrite Hi. unfold preprocessed. simpl.
        rewrite decide_False by done. simpl. by rewrite Hs.
Qed.

(** ** The anomaly heatmap (lines 188-202) *)

Lemma month_order_months (k : nat) (m : string) :
  months !! k = Some m → month_order !! m = Some (Z.of_nat k + 1).
Proof.
  do 12 (destruct k as [|k]; [intros [= <-]; by vm_compute|]). done.
Qed.

Lemma month_order_NoDup : NoDup ((λ m, month_order !! m) <$> months).
Proof. apply (bool_decide_unpack _). by vm_compute. Qed.

Lemma month_order_range (m : string) (n : Z) :
  m ∈ months → month_order !! m = Some n → 1 ≤ n ≤ 12.
Proof.
  intros [k Hk]%list_elem_of_lookup Hn.
  rewrite (month_order_months k m Hk) in Hn. injection Hn as <-.
  apply lookup_lt_Some in Hk. simpl in Hk. lia.
Qed.

Section MeltFacts.
Context {A : Type}.
Implicit Types (t : GlobalTable A) (vars : list string).

Lemma zip_years_inj (years : list Z) (col : list A) (p q : Z * A) :
  NoDup years → p ∈ zip years col → q ∈ zip years col → p.1 = q.1 → p = q.
Proof.
  intros Hnd (i & y & v & -> & Hy & Hv)%elem_of_lookup_zip_with
    (j & y' & v' & -> & Hy' & Hv')%elem_of_lookup_zip_with; simpl.
  intros <-. assert (i = j) as <- by (by eapply NoDup_lookup). congruence.
Qed.

(** What [melt] returns: the column blocks in the order of [vars], with
    every (year, variable) pair at most once. *)
Lemma melt_blocks t vars (f : string → option Z) :
  NoDup (Year t) → NoDup (f <$> vars) →
  (∀ m, m ∈ vars → ∃ col, get_column m (data_columns t) = Ok col) →
  ∃ long,
    melt t vars = Ok long
    ∧ NoDup ((λ r : Z * string * A, (r.1.1, f r.1.2)) <$> long)
    ∧ ∀ y m v, (y, m, v) ∈ long ↔
        m ∈ vars ∧ ∃ col, get_column m (data_columns t) = Ok col
                          ∧ (y, v) ∈ zip (Year t) col.
Proof.
  intros Hyears. induction vars as [|m vars IH]; intros Hvars Hcols.
  - exists []. split_and!; [done|constructor|].
    intros y m v. rewrite !elem_of_nil. tauto.
  - rewrite fmap_cons in Hvars. apply NoDup_cons in Hvars as [Hm Hvars].
    destruct (Hcols m) as [col Hcol]; [by left|].
    destruct IH as (long & Hlong & Hnd & Hmem); [done| |].
    { intros m' Hm'. apply Hcols. by right. }
    exists (((λ yv : Z * A, (yv.1, m, yv.2)) <$> zip (Year t) col) ++ long)%list.
    split_and!.
    + simpl. by rewrite Hcol, Hlong.
    + rewrite fmap_app. apply NoDup_app. split_and!; [|
        intros key Hkey Hkey'|done].
      * rewrite <- list_fmap_compose. apply NoDup_fmap_2_strong.
        -- intros p q Hp Hq [= Heq]. by eapply zip_years_inj.
        -- by apply NoDup_zip_l.
      * rewrite <- list_fmap_compose in Hkey.
        apply list_elem_of_fmap in Hkey as (yv & -> & _).
        apply list_elem_of_fmap in Hkey' as ([[y' m'] v'] & [= _ Hf] & Hin).
        simpl in Hf. apply Hmem in Hin as [Hm' _]. apply Hm.
        rewrite Hf. by apply list_elem_of_fmap_2.
    + intros y m' v. rewrite elem_of_app, elem_of_cons, Hmem, list_elem_of_fmap.
      split.
      * intros [([y' v'] & [= -> -> ->] & Hin)|[Hm' Hc]]; [|tauto].
        split; [by left|]. by exists col.
      * intros [[->|Hm'] (col' & Hcol' & Hin)].
        -- left. exists (y, v). split; [done|]. congruence.
        -- right. split; [done|]. by exists col'.
Qed.

Lemma get_column_fmap {B} (g : A → B) (name : string) (cols : list (string * list A)) :
  get_column name ((λ nc : string * list A, (nc.1, g <$> nc.2)) <$> cols)
  = match get_column name cols with
    | Ok col => Ok (g <$> col)
    | Err e => Err e
    end.
Proof.
  induction cols as [|[n col] cols IH]; simpl; [done|].
  destruct (decide (n = name)); [done|apply IH].
Qed.
End MeltFacts.

Lemma global_pivot_input (long : list (Z * string * float)) :
  (λ r : Z * string * float * option Z, (r.1.1.1, r.2, r.1.2)) <$> add_MonthNum long
  = (λ r : Z * string * float, (r.1.1, month_order !! r.1.2, r.2)) <$> long.
Proof. unfold add_MonthNum. by rewrite <- list_fmap_compose. Qed.

(** The matrix of the reshape, cell by cell. *)
Lemma global_reshape_cells (df : GlobalTable float) :
  NoDup (Year df) →
  (∀ m, m ∈ months →
     ∃ col, get_column m (data_columns df) = Ok col
            ∧ length col = length (Year df)) →
  ∃ M : Matrix Z (option Z),
    global_heatmap_data df = Ok M
    ∧ StronglySorted Z.lt (index M)
    ∧ (∀ y, y ∈ index M ↔ y ∈ Year df)
    ∧ (∀ c, c ∈ columns M → ∃ n, c = Some n ∧ 1 ≤ n ≤ 12)
    ∧ ∀ i y k m col,
        Year df !! i = Some y → months !! k = Some m →
        get_column m (data_columns df) = Ok col →
        loc M y (Some (Z.of_nat k + 1)) = col !! i.
Proof.
  intros Hyears Hcols.
  destruct (melt_blocks df months (λ m, month_order !! m) Hyears month_order_NoDup)
    as (long & Hlong & Hnd & Hmem).
  { intros m Hm. destruct (Hcols m Hm) as (col & Hcol & _). by exists col. }
  set (P := (λ r : Z * string * float, (r.1.1, month_order !! r.1.2, r.2)) <$> long).
  assert (NoDup (fst <$> P)) as HndP.
  { unfold P. by rewrite <- list_fmap_compose. }
  assert (∀ y c v, (y, c, v) ∈ P ↔
            ∃ m, c = month_order !! m ∧ (y, m, v) ∈ long) as HP.
  { intros y c v. unfold P. rewrite list_elem_of_fmap. split.
    - intros ([[y' m] v'] & [= -> -> ->] & Hin). by exists m.
    - intros (m & -> & Hin). by exists (y, m, v). }
  assert (∀ i y k m col, Year df !! i = Some y → months !! k = Some m →
            get_column m (data_columns df) = Ok col →
            ∃ v, col !! i = Some v ∧ (y, Some (Z.of_nat k + 1), v) ∈ P) as Hcell.
  { intros i y k m col Hy Hk Hcol.
    assert (m ∈ months) as Hm by (by eapply list_elem_of_lookup_2).
    destruct (Hcols m Hm) as (col' & Hcol' & Hlen).
    assert (col' = col) as -> by congruence.
    destruct (lookup_lt_is_Some_2 col i) as [v Hv].
    { rewrite Hlen. by eapply lookup_lt_Some. }
    exists v. split; [done|]. apply HP. exists m.
    split; [by rewrite (month_order_months k m)|].
    apply Hmem. split; [done|]. exists col. split; [done|].
    by apply (elem_of_lookup_zip_with_2 pair (Year df) col y v (y, v) i). }
  set (M := {| index := sort_unique kcmp ((λ t : Z * option Z * float, t.1.1) <$> P);
               columns := sort_unique kcmp ((λ t : Z * option Z * float, t.1.2) <$> P);
               values := (λ y, (λ c, lookup_cell y c P)
                                 <$> sort_unique kcmp ((λ t : Z * option Z * float, t.1.2) <$> P))
                           <$> sort_unique kcmp ((λ t : Z * option Z * float, t.1.1) <$> P) |}).
  assert (global_heatmap_data df = Ok M) as HM.
  { unfold global_heatmap_data. rewrite Hlong, global_pivot_input. fold P.
    rewrite pivot_NoDup by done. fold M.
    rewrite sort_index_rows_sorted; [done|apply sort_unique_sorted|].
    unfold M; cbn [values index]. by rewrite length_fmap. }
  exists M. split_and!.
  - done.
  - apply klt_Z_lt, sort_unique_sorted.
  - intros y. unfold M; cbn [index]. rewrite elem_of_sort_unique, list_elem_of_fmap.
    split.
    + intros ([[y' c] v] & -> & Hin). simpl.
      apply HP in Hin as (m & _ & Hin). apply Hmem in Hin as (_ & col & _ & Hin).
      by apply elem_of_zip_l in Hin.
    + intros [i Hy]%list_elem_of_lookup.
      destruct (Hcols "Jan") as (col & Hcol & _); [by left|].
      destruct (Hcell i y 0%nat "Jan" col Hy eq_refl Hcol) as (v & _ & Hin).
      by eexists (_, _, _).
  - intros c. unfold M; cbn [columns]. rewrite elem_of_sort_unique, list_elem_of_fmap.
    intros ([[y c'] v] & -> & Hin). simpl.
    apply HP in Hin as (m & -> & Hin). apply Hmem in Hin as (Hm & _).
    destruct (list_elem_of_lookup_1 _ _ Hm) as [k Hk].
    exists (Z.of_nat k + 1). split; [by apply month_order_months|].
    apply lookup_lt_Some in Hk. simpl in Hk. lia.
  - intros i y k m col Hy Hk Hcol.
    destruct (Hcell i y k m col Hy Hk Hcol) as (v & Hv & Hin).
    rewrite Hv. unfold M.
    rewrite (loc_tabulate _ _ (λ y c, lookup_cell y c P)).
    + f_equal. by apply lookup_cell_elem.
    + apply elem_of_sort_unique, list_elem_of_fmap. by exists (y, Some (Z.of_nat k + 1), v).
    + apply elem_of_sort_unique, list_elem_of_fmap. by exists (y, Some (Z.of_nat k + 1), v).
Qed.

(** C2.  For a wide anomaly table with distinct years and the twelve
    month columns, each as long as the [Year] column, the reshape of
    [plot_global_temp_heatmap] returns a matrix whose rows are the years
    in increasing order and whose columns are month numbers from 1 to 12,
    and whose cell at (year, month number) is the cell of the wide table
    in that year's row and that month's column: a number stays that
    number, NaN stays NaN.  A cell that held the sentinel before the
    preprocessing of [main] is NaN in the matrix. *)
Theorem global_reshape_roundtrip `{Backend} (df : GlobalTable float) :
  NoDup (Year df) →
  (∀ m, m ∈ months →
     ∃ col, get_column m (data_columns df) = Ok col
            ∧ length col = length (Year df)) →
  ∃ M : Matrix Z (option Z),
    global_heatmap_data df = Ok M
    ∧ StronglySorted Z.lt (index M)
    ∧ (∀ y, y ∈ index M ↔ y ∈ Year df)
    ∧ (∀ c, c ∈ columns M → ∃ n, c = Some n ∧ 1 ≤ n ≤ 12)
    ∧ (∀ i y k m col,
         Year df !! i = Some y → months !! k = Some m →
         get_column m (data_columns df) = Ok col →
         loc M y (Some (Z.of_nat k + 1)) = col !! i
         ∧ (∀ q, col !! i = Some (Some q) →
              loc M y (Some (Z.of_nat k + 1)) = Some (Some q))
         ∧ (col !! i = Some NaN → loc M y (Some (Z.of_nat k + 1)) = Some NaN))
    ∧ (∀ raw i y k m rawcol,
         preprocess_global str_to_float raw = Ok df →
         Year raw !! i = Some y → months !! k = Some m →
         get_column m (data_columns raw) = Ok rawcol →
         rawcol !! i = Some (CStr "***") →
         loc M y (Some (Z.of_nat k + 1)) = Some NaN).
Proof.
  intros Hyears Hcols.
  destruct (global_reshape_cells df Hyears Hcols) as (M & HM & Hs & Hidx & Hc & Hloc).
  exists M. split_and!; [done..| |].
  - intros i y k m col Hy Hk Hcol.
    rewrite (Hloc i y k m col Hy Hk Hcol). by split_and!.
  - intros raw i y k m rawcol Hraw Hy Hk Hrawcol Hcell'.
    rewrite preprocess_global_total in Hraw. injection Hraw as <-.
    rewrite (Hloc i y k m (preprocessed str_to_float <$> rawcol)); [|done..|].
    + by rewrite list_lookup_fmap, Hcell'.
    + cbn [data_columns]. by rewrite get_column_fmap, Hrawcol.
Qed.

(** A small anomaly table: 1881 has no July value. *)
Definition sample_anomalies : GlobalTable float :=
  {| Year := [1882; 1880; 1881];
     data_columns :=
       ((λ m, (m, if decide (m = "Jul")
                  then [Some (-10 # 100); Some (-18 # 100); NaN]
                  else [Some (-11 # 100); Some (-17 # 100); Some (-9 # 100)])%Q)
          <$> months)
       ++ [("J-D", [Some (-11 # 100); Some (-17 # 100); Some (-9 # 100)])%Q] |}%list.

Definition sample_backend : Backend :=
  {| str_to_float := λ s,
       if decide (s = "0.5") then Some (Some (1 # 2)%Q)
       else if decide (s = "nan") then Some NaN
       else None;
     render_ok := λ _, true |}.

Lemma global_reshape_roundtrip_witness :
  NoDup (Year sample_anomalies)
  ∧ ∃ M, global_heatmap_data sample_anomalies = Ok M
         ∧ index M = [1880; 1881; 1882]
         ∧ loc M 1881 (Some 7) = Some NaN
         ∧ loc M 1881 (Some 6) = Some (Some (-9 # 100)%Q).
Proof.
  assert (NoDup (Year sample_anomalies)) as Hnd.
  { apply (bool_decide_unpack _). by vm_compute. }
  split; [exact Hnd|].
  destruct (@global_reshape_roundtrip sample_backend sample_anomalies Hnd)
    as (M & HM & _).
  { intros m Hm.
    repeat (apply elem_of_cons in Hm as [->|Hm]; [eexists; split; reflexivity|]).
    by apply elem_of_nil in Hm. }
  exists M. split; [exact HM|].
  vm_compute in HM. injection HM as <-. by vm_compute.
Defined.

(** ** The Minnesota dates (line 251) *)

Lemma packed_fields (y m : Z) :
  1 ≤ m ≤ 12 →
  (y * 10000 + m * 100 + 1) / 10000 = y
  ∧ ((y * 10000 + m * 100 + 1) / 100) mod 100 = m
  ∧ (y * 10000 + m * 100 + 1) mod 100 = 1.
Proof.
  intros Hm.
  assert ((y * 10000 + m * 100 + 1) / 100 = y * 100 + m) as E.
  { symmetry. apply (Z.div_unique _ 100 _ 1); lia. }
  split_and!.
  - symmetry. apply (Z.div_unique _ 10000 _ (m * 100 + 1)); lia.
  - rewrite E. symmetry. apply (Z.mod_unique _ 100 y m); lia.
  - symmetry. apply (Z.mod_unique _ 100 (y * 100 + m) 1); lia.
Qed.

Lemma days_in_month_pos (y m : Z) : 28 ≤ days_in_month y m.
Proof.
  unfold days_in_month.
  destruct (m =? 2); [by destruct (is_leap y)|].
  by destruct ((m =? 4) || (m =? 6) || (m =? 9) || (m =? 11)).
Qed.


(** Every year that lies completely inside the nanosecond range gives a
    date. *)
Lemma to_datetime_ymd_total (y m : Z) :
  1 ≤ m ≤ 12 → 1678 ≤ y ≤ 2261 →
  to_datetime_ymd y m 1 = Ok {| ts_year := y; ts_month := m; ts_day := 1 |}.
Proof.
  intros Hm Hy. unfold to_datetime_ymd.
  destruct (packed_fields y m Hm) as (-> & -> & ->).
  assert (valid_date y m 1 = true) as ->.
  { unfold valid_date. pose proof (days_in_month_pos y m).
    repeat (apply andb_true_intro; split); lia. }
  assert (in_ns_bounds y m 1 = true) as ->; [|done].
  unfold in_ns_bounds, date_leb.
  apply andb_true_intro; split; apply orb_true_intro; left; lia.
Qed.

(** The date column exists when every month is from 1 to 12 and every
    year lies inside the nanosecond range. *)
Lemma to_datetime_rows_total (rows : list MinnesotaRecord) :
  Forall (λ r, 1 ≤ mo r ≤ 12) rows → Forall (λ r, 1678 ≤ year r ≤ 2261) rows →
  ∃ dates, to_datetime_rows rows = Ok dates.
Proof.
  induction rows as [|r rows IH]; intros Hmo Hyear; [by exists []|].
  apply Forall_cons in Hmo as [Hm Hmo]. apply Forall_cons in Hyear as [Hy Hyear].
  destruct (IH Hmo Hyear) as [ts Hts]. simpl.
  rewrite to_datetime_ymd_total, Hts by done. by eexists.
Qed.


Definition sample_minnesota : list MinnesotaRecord :=
  [ {| site := "Waseca"; year := 1927; mo := 3; mprecip := (57 # 100)%Q |};
    {| site := "Morris"; year := 1936; mo := 12; mprecip := (121 # 100)%Q |} ].


(** ** The scatter plot's size legend (line 153) *)

Lemma Qcompare_opp (x y : Q) : Qcompare y x = CompOpp (Qcompare x y).
Proof. by rewrite <- Qcompare_antisym. Qed.

Lemma Qcompare_lt_trans (x y z : Q) :
  Qcompare x y = Lt → Qcompare y z = Lt → Qcompare x z = Lt.
Proof. rewrite <- !Qlt_alt. apply Qlt_trans. Qed.

Lemma np_unique_sorted (l : list Q) : StronglySorted Qlt (np_unique l).
Proof.
  exact (sort_unique_sorted_cmp Qcompare Qcompare_opp Qcompare_lt_trans l).
Qed.

Lemma np_unique_fixed (l : list Q) : StronglySorted Qlt l → np_unique l = l.
Proof. exact (sort_unique_fixed Qcompare l). Qed.

(** Rounding half to even moves a number by at most one half. *)
Lemma rint_bounds (x : Q) : (x - (1 # 2) <= inject_Z (rint x) <= x + (1 # 2))%Q.
Proof.
  unfold rint. pose proof (Qfloor_le x) as Hlo. pose proof (Qlt_floor x) as Hhi.
  rewrite inject_Z_plus in Hhi. change (inject_Z 1) with 1%Q in Hhi.
  destruct (Qcompare_spec (x - inject_Z (Qfloor x)) (1 # 2));
    [destruct (Z.even (Qfloor x))| |];
    rewrite ?inject_Z_plus; change (inject_Z 1) with 1%Q;
    generalize dependent (inject_Z (Qfloor x)); intros f; intros; lra.
Qed.

Lemma rint_gap (x y : Q) : (x + 1 < y)%Q → rint x < rint y.
Proof.
  intros Hxy. pose proof (rint_bounds x). pose proof (rint_bounds y).
  rewrite Zlt_Qlt. lra.
Qed.

(** Two numbers more than 0.01 apart stay apart after rounding to two
    decimals. *)
Lemma np_round2_lt (x y : Q) :
  (x + (1 # 100) < y)%Q → (np_round2 x < np_round2 y)%Q.
Proof.
  intros Hxy. unfold np_round2, Qlt. simpl.
  assert (rint (x * 100) < rint (y * 100)); [|lia].
  apply rint_gap. lra.
Qed.

Lemma linspace4 (p : Q) :
  linspace 0 p 4 = [ (0 + 0 * ((p - 0) / 3))%Q; (0 + 1 * ((p - 0) / 3))%Q;
                     (0 + 2 * ((p - 0) / 3))%Q; p ].
Proof. reflexivity. Qed.

(** The four points are evenly spaced from 0 to [p]. *)
Lemma linspace4_even (p : Q) (k : nat) (x : Q) :
  linspace 0 p 4 !! k = Some x → (x == inject_Z (Z.of_nat k) * p / 3)%Q.
Proof.
  rewrite linspace4.
  destruct k as [|[|[|[|k]]]]; simpl; intros [= <-];
    change (inject_Z 0) with 0%Q; change (inject_Z 1) with 1%Q;
    change (inject_Z 2) with 2%Q; change (inject_Z 3) with 3%Q; field.
Qed.

Lemma ref_values_four (p : Q) :
  (3 # 100 < p)%Q → ref_values_of p = np_round2 <$> linspace 0 p 4.
Proof.
  intros Hp. unfold ref_values_of. apply np_unique_fixed.
  rewrite linspace4.
  assert (3 * ((p - 0) / 3) == p)%Q as Hstep by field.
  generalize dependent ((p - 0) / 3)%Q. intros step Hstep.
  assert (np_round2 (0 + 0 * step) < np_round2 (0 + 1 * step))%Q as H01
    by (apply np_round2_lt; lra).
  assert (np_round2 (0 + 1 * step) < np_round2 (0 + 2 * step))%Q as H12
    by (apply np_round2_lt; lra).
  assert (np_round2 (0 + 2 * step) < np_round2 p)%Q as H23
    by (apply np_round2_lt; lra).
  repeat constructor; try done; eauto using Qlt_trans.
Qed.

(** C9, as the code has it.  The size legend of the scatter plot shows
    the distinct values among four evenly spaced points from 0 to the
    cutoff, each rounded to two decimals, in increasing order: at least
    one and at most four reference values, and exactly four, one per
    point, when the cutoff exceeds 0.03. *)
Theorem size_legend_ref_values (precip_col : list Q) :
  let p := max_precip_of precip_col in
  let points := linspace 0 p 4 in
  let refs := ref_values_of p in
  (length points = 4%nat
   ∧ ∀ k x, points !! k = Some x → (x == inject_Z (Z.of_nat k) * p / 3)%Q)
  ∧ (1 ≤ length refs ≤ 4)%nat
  ∧ StronglySorted Qlt refs
  ∧ (∀ v, v ∈ refs → ∃ x, x ∈ points ∧ v = np_round2 x)
  ∧ (∀ x, x ∈ points → ∃ v, v ∈ refs ∧ (v == np_round2 x)%Q)
  ∧ ((3 # 100 < p)%Q → refs = np_round2 <$> points ∧ length refs = 4%nat)
  ∧ ∀ rows pts ch sh,
      scatter_figure rows precip_col = WeatherScatter pts ch sh → sh.*1 = refs.
Proof.
  intros p points refs.
  pose proof (length_sort_unique Qcompare (np_round2 <$> points)) as [Hle Hge].
  split_and!.
  - done.
  - apply linspace4_even.
  - apply Hge. unfold points. by rewrite linspace4.
  - unfold points in Hle. by rewrite linspace4 in Hle.
  - apply np_unique_sorted.
  - intros v Hv%elem_of_sort_unique_inv.
    apply list_elem_of_fmap in Hv as (x & -> & Hx). by exists x.
  - intros x Hx.
    destruct (sort_unique_covers Qcompare (np_round2 x) (np_round2 <$> points))
      as (v & Hv & Hvx); [by apply list_elem_of_fmap_2|].
    exists v. split; [done|]. destruct Hvx as [->|Heq]; [reflexivity|].
    symmetry. by apply Qeq_alt.
  - intros Hp. unfold refs. by rewrite ref_values_four.
  - intros rows pts ch sh [= _ _ <-]. unfold size_handles_of.
    rewrite <- list_fmap_compose. by apply list_fmap_id.
Qed.

(** Twenty-two days with 0, 1, ..., 21 units of precipitation: the 95th
    percentile is 19.95. *)
Definition sample_precip : list Q := (λ n, inject_Z (Z.of_nat n)) <$> seq 0 22.

Lemma size_legend_ref_values_witness :
  (3 # 100 < max_precip_of sample_precip)%Q
  ∧ ref_values_of (max_precip_of sample_precip)
    = np_round2 <$> linspace 0 (max_precip_of sample_precip) 4
  ∧ length (ref_values_of (max_precip_of sample_precip)) = 4%nat.
Proof.
  assert (3 # 100 < max_precip_of sample_precip)%Q as Hp by (by vm_compute).
  split; [exact Hp|].
  destruct (size_legend_ref_values sample_precip) as (_ & _ & _ & _ & _ & Hfour & _).
  exact (Hfour Hp).
Defined.

(** A table without measurable precipitation: every reading is zero, a
    trace marker or missing. *)
Definition dry_rows : list WeatherRecord :=
  [ {| city := "Auckland"; month := 1; avg_temp := Some 68%Q; avg_humidity := Some 74%Q;
       precip := CNum 0 |};
    {| city := "Auckland"; month := 1; avg_temp := Some 70%Q; avg_humidity := Some 71%Q;
       precip := CStr "T" |};
    {| city := "Christchurch"; month := 2; avg_temp := Some 61%Q; avg_humidity := Some 66%Q;
       precip := CNA |} ].

(** C9, as stated, fails: on a dry table the cutoff is 0, the four points
    coincide, and the legend has a single reference value. *)
Lemma size_legend_one_value_when_dry :
  coerce_precip (@str_to_float sample_backend) (precip <$> dry_rows) = Ok [0; 0; 0]%Q
  ∧ ref_values_of (max_precip_of [0; 0; 0]%Q) = [np_round2 0]
  ∧ ¬ (∀ precip_col : list Q,
         length (ref_values_of (max_precip_of precip_col)) = 4%nat).
Proof.
  split_and!; [by vm_compute..|].
  intros Hall. specialize (Hall [0; 0; 0]%Q). by vm_compute in Hall.
Qed.

(** ** The scatter plot's marker sizes (lines 116-133) *)





(** The size legend does clamp at the cutoff: a value at or above it is
    drawn with the largest marker. *)
Lemma legend_size_clamped (p v : Q) :
  (p <= v)%Q → np_interp2 v 0 p size_range.1 size_range.2 = 300%Q.
Proof.
  intros Hpv. unfold np_interp2.
  by rewrite (proj2 (Qle_bool_iff p v) Hpv).
Qed.

(** Twenty-two daily rows of one city with 0, 1, ..., 21 units of
    precipitation. *)
Definition rainy_rows : list WeatherRecord :=
  (λ n, {| city := "Auckland"; month := 1; avg_temp := Some 68%Q; avg_humidity := Some 74%Q;
           precip := CNum (inject_Z (Z.of_nat n)) |}) <$> seq 0 22.

(** C3 on [rainy_rows].  The 95th percentile of the precipitation is
    19.95.  The row with precipitation 20 lies above it, and its marker
    has area 860/3, less than the maximum 300: the marker sizes are
    scaled between the smallest and the largest value of the data, and
    only the largest value, 21, gets the maximum.  The size legend of the
    same figure would draw the value 20 with area 300. *)
Theorem scatter_size_above_p95_not_max :
  coerce_precip (@str_to_float sample_backend) (precip <$> rainy_rows)
    = Ok sample_precip
  ∧ (max_precip_of sample_precip == 399 # 20)%Q
  ∧ (max_precip_of sample_precip < 20)%Q
  ∧ (∃ pts ch sh pt s,
       scatter_figure rainy_rows sample_precip = WeatherScatter pts ch sh
       ∧ pts !! 20%nat = Some pt
       ∧ pt_size pt = Some s
       ∧ (s == 860 # 3)%Q ∧ (s < 300)%Q)
  ∧ (∃ s, marker_size size_range sample_precip 21 = Some s ∧ (s == 300)%Q)
  ∧ np_interp2 20 0 (max_precip_of sample_precip) size_range.1 size_range.2
    = 300%Q.
Proof.
  split_and!.
  - by vm_compute.
  - by vm_compute.
  - by vm_compute.
  - do 5 eexists. split_and!; [reflexivity|reflexivity|reflexivity|..]; by vm_compute.
  - eexists. split; [reflexivity|]. by vm_compute.
  - by vm_compute.
Qed.

(** ** Paths *)

#[local] Arguments String.append !_ _ / : simpl nomatch.

Lemma string_app_assoc (a b c : string) : (a ++ b) ++ c = a ++ (b ++ c).
Proof. induction a as [|x a IH]; simpl; [done|]. by f_equal. Qed.

Lemma has_slash_app (a b : string) :
  has_slash (a ++ b) = has_slash a || has_slash b.
Proof.
  induction a as [|x a IH]; simpl; [done|]. rewrite IH. by destruct (is_slash x).
Qed.

Lemma all_slashes_app (a b : string) :
  all_slashes (a ++ b) = all_slashes a && all_slashes b.
Proof.
  induction a as [|x a IH]; simpl; [done|]. rewrite IH. by destruct (is_slash x).
Qed.

Lemma ends_with_slash_app (a b : string) :
  b ≠ "" → ends_with_slash (a ++ b) = ends_with_slash b.
Proof.
  intros Hb. induction a as [|x a IH]; simpl; [done|].
  rewrite <- IH. destruct (a ++ b) eqn:E; [|done].
  destruct a; simpl in E; [done|discriminate].
Qed.

Lemma has_slash_ends (s : string) : has_slash s = false → ends_with_slash s = false.
Proof.
  induction s as [|x s IH]; simpl; [done|].
  intros [Hx Hs]%orb_false_elim. destruct s; [done|by apply IH].
Qed.

Lemma all_slashes_ends (s : string) :
  all_slashes s = true → s ≠ "" → ends_with_slash s = true.
Proof.
  induction s as [|x s IH]; simpl; [done|].
  intros [Hx Hs]%andb_true_iff _. destruct s; [done|by apply IH].
Qed.

Lemma rstrip_slashes_nil (s : string) :
  rstrip_slashes s = "" → all_slashes s = true.
Proof.
  destruct s as [|x s]; simpl; [done|].
  by destruct (is_slash x && all_slashes s).
Qed.

Lemma rstrip_slashes_no_slash_end (s : string) :
  ends_with_slash (rstrip_slashes s) = false.
Proof.
  induction s as [|x s IH]; [done|].
  cbn [rstrip_slashes]. destruct (all_slashes (String x s)) eqn:E; [done|].
  cbn [ends_with_slash]. destruct (rstrip_slashes s) eqn:Es; [|done].
  apply rstrip_slashes_nil in Es. simpl in E. rewrite Es in E.
  by destruct (is_slash x).
Qed.

Lemma rstrip_slashes_app_slash (d : string) :
  ends_with_slash d = false → rstrip_slashes (d ++ "/") = d.
Proof.
  induction d as [|x d IH]; [done|]. intros Hd.
  cbn [append rstrip_slashes].
  assert (all_slashes (String x (d ++ "/")) = false) as ->.
  { destruct (all_slashes (String x (d ++ "/"))) eqn:E; [|done].
    change (String x (d ++ "/")) with (String x d ++ "/") in E.
    rewrite all_slashes_app in E. apply andb_true_iff in E as [E _].
    by rewrite all_slashes_ends in Hd. }
  f_equal. apply IH. destruct d; [done|exact Hd].
Qed.

(** The shape of a directory name that [dirname] and [join] produce:
    nothing but slashes (the root, or empty), or no slash at the end. *)
Definition dir_shaped (d : string) : Prop :=
  all_slashes d = true ∨ ends_with_slash d = false.

Lemma rsplit_slash_app (d name : string) :
  d = "" ∨ ends_with_slash d = true → has_slash name = false →
  rsplit_slash (d ++ name) = (d, name).
Proof.
  intros Hd Hname. induction d as [|x d IH].
  - simpl. destruct name as [|c name]; [done|].
    simpl in Hname. apply orb_false_elim in Hname as [Hc Hn].
    cbn [rsplit_slash]. by rewrite Hn, Hc.
  - destruct Hd as [|Hd]; [done|].
    cbn [append rsplit_slash]. rewrite has_slash_app, Hname, orb_false_r.
    destruct d as [|y d].
    + simpl in Hd. simpl. by rewrite Hd.
    + assert (has_slash (String y d) = true) as ->.
      { clear IH. revert y Hd. induction d as [|z d IHd]; intros y Hd; simpl in *.
        - by rewrite Hd.
        - rewrite (IHd z Hd). by destruct (is_slash y). }
      rewrite IH by (by right). done.
Qed.

Lemma dirname_shaped (p : string) : dir_shaped (dirname p).
Proof.
  unfold dirname, path_split, dir_shaped; simpl.
  destruct (String.eqb (rsplit_slash p).1 "") eqn:E; simpl.
  - apply String.eqb_eq in E as ->. by left.
  - destruct (all_slashes (rsplit_slash p).1) eqn:E'; simpl; [by left|].
    right. apply rstrip_slashes_no_slash_end.
Qed.

Section JoinFacts.
Context (d name : string).
Hypothesis Hd : dir_shaped d.
Hypothesis Hname : has_slash name = false.
Hypothesis Hne : name ≠ "".

Lemma path_join_eq :
  path_join d name
  = if String.eqb d "" || ends_with_slash d then d ++ name else d ++ "/" ++ name.
Proof using Hname Hne.
  unfold path_join. destruct name as [|c n]; [done|].
  simpl in Hname. apply orb_false_elim in Hname as [-> _]. done.
Qed.

Lemma path_split_join : path_split (path_join d name) = (d, name).
Proof using Hd Hname Hne.
  rewrite path_join_eq. unfold path_split.
  destruct (String.eqb d "") eqn:E; cbn [orb].
  - apply String.eqb_eq in E as ->.
    by rewrite (rsplit_slash_app "" name (or_introl eq_refl) Hname).
  - apply String.eqb_neq in E.
    destruct (ends_with_slash d) eqn:Es.
    + rewrite rsplit_slash_app by auto. cbn [fst snd].
      destruct Hd as [Hall|?]; [|congruence]. rewrite Hall.
      by rewrite andb_false_r.
    + rewrite <- string_app_assoc, rsplit_slash_app; [|right|done].
      * cbn [fst snd]. assert (String.eqb (d ++ "/") "" = false) as ->.
        { apply String.eqb_neq. by destruct d. }
        assert (all_slashes (d ++ "/") = false) as ->.
        { rewrite all_slashes_app. destruct (all_slashes d) eqn:Ea; [|done].
          by rewrite all_slashes_ends in Es. }
        cbn [negb andb]. by rewrite rstrip_slashes_app_slash.
      * by rewrite ends_with_slash_app.
Qed.

Lemma dirname_join : dirname (path_join d name) = d.
Proof using Hd Hname Hne. unfold dirname. by rewrite path_split_join. Qed.

Lemma path_join_shaped : dir_shaped (path_join d name).
Proof using Hname Hne.
  right. rewrite path_join_eq.
  destruct (String.eqb d "" || ends_with_slash d).
  - rewrite ends_with_slash_app by done. by apply has_slash_ends.
  - rewrite <- string_app_assoc, ends_with_slash_app by done. by apply has_slash_ends.
Qed.

Lemma path_join_not_root : is_root (path_join d name) = false.
Proof using Hname Hne.
  unfold is_root. apply andb_false_iff. right. rewrite path_join_eq.
  assert (all_slashes name = false) as Hn.
  { destruct name as [|c n]; [done|]. simpl in *.
    apply orb_false_elim in Hname as [-> _]. done. }
  destruct (String.eqb d "" || ends_with_slash d);
    rewrite ?all_slashes_app, Hn; by rewrite ?andb_false_r.
Qed.
End JoinFacts.

(** Joining is injective on shaped directories and plain names. *)
Lemma path_join_inj (d1 d2 n1 n2 : string) :
  dir_shaped d1 → dir_shaped d2 →
  has_slash n1 = false → has_slash n2 = false → n1 ≠ "" → n2 ≠ "" →
  path_join d1 n1 = path_join d2 n2 → d1 = d2 ∧ n1 = n2.
Proof.
  intros Hd1 Hd2 Hn1 Hn2 He1 He2 Heq.
  pose proof (path_split_join d1 n1 Hd1 Hn1 He1) as H1.
  rewrite Heq, (path_split_join d2 n2 Hd2 Hn2 He2) in H1. by injection H1.
Qed.

(** ** Running the script *)

Lemma M_bind_Ok {A B} (m : M A) (f : A → M B) (w w' : World) (a : A) :
  m w = Ok (a, w') → (m ≫= f) w = f a w'.
Proof. intros Hm. unfold mbind, M_bind. by rewrite Hm. Qed.

Lemma M_bind_inv {A B} (m : M A) (f : A → M B) (w w'' : World) (b : B) :
  (m ≫= f) w = Ok (b, w'') → ∃ a w', m w = Ok (a, w') ∧ f a w' = Ok (b, w'').
Proof.
  unfold mbind, M_bind. destruct (m w) as [[a w']|e]; [|done]. by exists a, w'.
Qed.

Definition output_dir (script_path : string) : string :=
  path_join (dirname (dirname script_path)) "output".

Definition data_dir (script_path : string) : string :=
  path_join (dirname (dirname script_path)) "data".

Definition output_names : list string :=
  ["weather_heatmap.png"; "weather_scatter.png"; "global_temp_heatmap.png";
   "minnesota_precip_line.png"].

Lemma output_name_plain (name : string) :
  name ∈ output_names → has_slash name = false ∧ name ≠ "" ∧ name ≠ "output".
Proof.
  intros Hn. repeat (apply elem_of_cons in Hn as [->|Hn]; [by split_and!|]).
  by apply elem_of_nil in Hn.
Qed.

Lemma output_dir_shaped (script : string) : dir_shaped (output_dir script).
Proof. by apply path_join_shaped. Qed.

Lemma data_dir_shaped (script : string) : dir_shaped (data_dir script).
Proof. by apply path_join_shaped. Qed.

Lemma output_dir_not_data_dir (script : string) : data_dir script ≠ output_dir script.
Proof.
  intros Heq. unfold data_dir, output_dir in Heq.
  apply path_join_inj in Heq as [_ Heq];
    [done|apply dirname_shaped|apply dirname_shaped|done..].
Qed.

Lemma rstrip_slashes_id (d : string) :
  ends_with_slash d = false → rstrip_slashes d = d.
Proof.
  induction d as [|x d IH]; [done|]. intros Hd. cbn [rstrip_slashes].
  destruct (all_slashes (String x d)) eqn:E.
  - by rewrite all_slashes_ends in Hd.
  - f_equal. destruct d; [done|]. by apply IH.
Qed.

(** The output directory is a plain name: looking it up is reading the
    entry under that very name. *)
Lemma output_dir_plain (script : string) :
  String.eqb (output_dir script) "" = false
  ∧ is_root (output_dir script) = false
  ∧ rstrip_slashes (output_dir script) = output_dir script.
Proof.
  assert (ends_with_slash (output_dir script) = false) as Hend.
  { unfold output_dir. rewrite path_join_eq by done.
    destruct (String.eqb _ "" || ends_with_slash _).
    - by rewrite ends_with_slash_app.
    - by rewrite <- string_app_assoc, ends_with_slash_app. }
  split_and!.
  - unfold output_dir. rewrite path_join_eq by done.
    destruct (String.eqb _ "" || ends_with_slash _);
      by destruct (dirname (dirname script)).
  - unfold output_dir. by apply path_join_not_root.
  - by apply rstrip_slashes_id.
Qed.

Lemma lookup_path_output_dir (files : gmap string Node) (script : string) :
  lookup_path files (output_dir script) = files !! output_dir script.
Proof.
  destruct (output_dir_plain script) as (Hne & _ & Hstrip).
  unfold lookup_path. by rewrite Hne, Hstrip.
Qed.

Lemma path_isdir_exists (files : gmap string Node) (p : string) :
  path_isdir files p = true → path_exists files p = true.
Proof.
  unfold path_isdir, path_exists. destruct (is_root p); [done|]. cbn [orb].
  by destruct (lookup_path files p) as [[]|].
Qed.

Lemma makedirs_exist_ok_eq (fuel : nat) (name : string) (files : gmap string Node) :
  makedirs_exist_ok fuel name files =
    let ht := path_split name in
    let ht := if String.eqb ht.2 "" then path_split ht.1 else ht in
    let create (files' : gmap string Node) :=
      match mkdir name files' with
      | Ok files'' => Ok files''
      | Err e => if path_isdir files' name then Ok files' else Err e
      end in
    if negb (String.eqb ht.1 "") && negb (String.eqb ht.2 "")
       && negb (path_exists files ht.1) then
      match fuel with
      | O => Err (FileNotFoundError name)
      | S fuel' =>
          let made :=
            match makedirs_exist_ok fuel' ht.1 files with
            | Ok files' => Ok files'
            | Err (FileExistsError _) => Ok files
            | Err e => Err e
            end in
          match made with
          | Err e => Err e
          | Ok files' => if String.eqb ht.2 "." then Ok files' else create files'
          end
      end
    else create files.
Proof. by destruct fuel. Qed.

(** [ensure_output_dir] on the output directory of the script, when the
    directory that holds [data] and [output] exists. *)
Lemma ensure_output_dir_creates (script : string) (w : World) :
  dirname (dirname script) = "" ∨ path_isdir (fs w) (dirname (dirname script)) = true →
  fs w !! output_dir script = None →
  ensure_output_dir (output_dir script) w
  = Ok (tt, {| fs := <[output_dir script := Dir]> (fs w); heap := heap w |}).
Proof.
  intros Hbase Hout. unfold ensure_output_dir.
  assert (path_split (output_dir script) = (dirname (dirname script), "output")) as Hsplit.
  { apply path_split_join; [apply dirname_shaped|done..]. }
  destruct (output_dir_plain script) as (Hne & Hroot & Hstrip).
  assert (mkdir (output_dir script) (fs w)
          = Ok (<[output_dir script := Dir]> (fs w))) as Hmk.
  { assert (dirname (output_dir script) = dirname (dirname script)) as Hdn.
    { unfold dirname at 1. by rewrite Hsplit. }
    unfold mkdir. rewrite Hne, Hroot, lookup_path_output_dir, Hout. cbv zeta.
    rewrite Hstrip, Hdn.
    destruct Hbase as [-> | ->]; [done|]. by rewrite orb_true_r. }
  assert (negb (String.eqb (dirname (dirname script)) "")
          && negb (String.eqb "output" "")
          && negb (path_exists (fs w) (dirname (dirname script))) = false) as Hcond.
  { destruct Hbase as [->|Hb]; [done|].
    rewrite (path_isdir_exists _ _ Hb). cbn [negb]. by rewrite andb_false_r. }
  rewrite makedirs_exist_ok_eq, Hsplit. cbv zeta.
  change (String.eqb (dirname (dirname script), "output").2 "") with false.
  cbn [fst snd]. by rewrite Hcond, Hmk.
Qed.

(** If the directory is there already, nothing changes. *)
Lemma ensure_output_dir_exists (script : string) (w : World) :
  dirname (dirname script) = "" ∨ path_isdir (fs w) (dirname (dirname script)) = true →
  fs w !! output_dir script = Some Dir →
  ensure_output_dir (output_dir script) w = Ok (tt, w).
Proof.
  intros Hbase Hout. unfold ensure_output_dir.
  assert (path_split (output_dir script) = (dirname (dirname script), "output")) as Hsplit.
  { apply path_split_join; [apply dirname_shaped|done..]. }
  assert (mkdir (output_dir script) (fs w) = Err (FileExistsError (output_dir script)))
    as Hmk.
  { destruct (output_dir_plain script) as (Hne & Hroot & _).
    unfold mkdir. by rewrite Hne, Hroot, lookup_path_output_dir, Hout. }
  assert (path_isdir (fs w) (output_dir script) = true) as Hdir.
  { unfold path_isdir. rewrite lookup_path_output_dir, Hout. by rewrite orb_true_r. }
  assert (negb (String.eqb (dirname (dirname script)) "")
          && negb (String.eqb "output" "")
          && negb (path_exists (fs w) (dirname (dirname script))) = false) as Hcond.
  { destruct Hbase as [->|Hb]; [done|].
    rewrite (path_isdir_exists _ _ Hb). cbn [negb]. by rewrite andb_false_r. }
  rewrite makedirs_exist_ok_eq, Hsplit. cbv zeta.
  change (String.eqb (dirname (dirname script), "output").2 "") with false.
  cbn [fst snd]. rewrite Hcond, Hmk, Hdir. by destruct w.
Qed.

(** ** What a renderer does to the tables of its caller *)

Lemma deref_inv (r : nat) (w w' : World) (f : Frame) :
  deref r w = Ok (f, w') → w' = w ∧ heap w !! r = Some f.
Proof. unfold deref. destruct (heap w !! r); [|done]. by intros [= <- <-]. Qed.

Lemma lift_inv {A} (r : result A) (w w' : World) (a : A) :
  lift r w = Ok (a, w') → w' = w ∧ r = Ok a.
Proof. unfold lift. destruct r; [|done]. by intros [= <- <-]. Qed.

Lemma alloc_inv (f : Frame) (w w' : World) (l : nat) :
  alloc f w = Ok (l, w') →
  l = length (heap w) ∧ w' = {| fs := fs w; heap := heap w ++ [f] |}.
Proof. unfold alloc. by intros [= <- <-]. Qed.

Lemma store_inv (r : nat) (f : Frame) (w w' : World) (u : unit) :
  store r f w = Ok (u, w') → w' = {| fs := fs w; heap := <[r := f]> (heap w) |}.
Proof. unfold store. by intros [= _ <-]. Qed.

Lemma savefig_inv `{Backend} (fname : string) (fig : Figure) (w w' : World) (u : unit) :
  savefig fname fig w = Ok (u, w') →
  w' = {| fs := <[fname := PngFile fig]> (fs w); heap := heap w |}.
Proof.
  unfold savefig. destruct (render_ok fig); [|done].
  destruct (path_isdir (fs w) (dirname fname)); [|done].
  destruct (fs w !! fname) as [[]|]; try done; by intros [= _ <-].
Qed.

Lemma mret_inv {A} (a b : A) (w w' : World) :
  (mret a : M A) w = Ok (b, w') → b = a ∧ w' = w.
Proof. unfold mret, M_ret. by intros [= <- <-]. Qed.

Lemma frame_copy_inv (r : nat) (w w' : World) (l : nat) :
  frame_copy r w = Ok (l, w') →
  ∃ f, heap w !! r = Some f ∧ l = length (heap w)
       ∧ w' = {| fs := fs w; heap := heap w ++ [f] |}.
Proof.
  unfold frame_copy. intros (f & w1 & [-> Hf]%deref_inv & Ha%alloc_inv)%M_bind_inv.
  by exists f.
Qed.

(** Writing to an object made after [h] leaves the objects of [h] alone. *)
Lemma lookup_fresh_store (h : list Frame) (f f' : Frame) (l : nat) (g : Frame) :
  h !! l = Some g → <[length h := f']> (h ++ [f])%list !! l = Some g.
Proof.
  intros Hl. pose proof (lookup_lt_Some _ _ _ Hl).
  rewrite list_lookup_insert_ne by lia. by rewrite lookup_app_l.
Qed.

Lemma fresh_store (h : list Frame) (f f' : Frame) :
  <[length h := f']> (h ++ [f])%list = (h ++ [f'])%list.
Proof.
  replace (length h) with (length h + 0)%nat by lia.
  by rewrite insert_app_r.
Qed.

Section Renderers.
Context `{Backend}.

Lemma plot_weather_heatmap_inv (df : nat) (outdir path : string) (w w' : World) :
  plot_weather_heatmap df outdir w = Ok (path, w') →
  ∃ rows pivot_table,
    heap w !! df = Some (WeatherFrame rows)
    ∧ weather_heatmap_data rows = Ok pivot_table
    ∧ path = path_join outdir "weather_heatmap.png"
    ∧ w' = {| fs := <[path := PngFile (WeatherHeatmap pivot_table)]> (fs w);
              heap := heap w |}.
Proof.
  unfold plot_weather_heatmap.
  intros (frame & w1 & [-> Hdf]%deref_inv & Hrun)%M_bind_inv.
  destruct frame as [rows| | | | | |]; try done.
  apply M_bind_inv in Hrun as (M & w1 & [-> HM]%lift_inv & Hrun).
  apply M_bind_inv in Hrun as (u & w1 & Hsave%savefig_inv & [-> ->]%mret_inv).
  by exists rows, M.
Qed.

Lemma plot_weather_scatter_inv (df : nat) (outdir path : string) (w w' : World) :
  plot_weather_scatter df outdir w = Ok (path, w') →
  ∃ rows precip_col,
    heap w !! df = Some (WeatherFrame rows)
    ∧ coerce_precip str_to_float (precip <$> rows) = Ok precip_col
    ∧ path = path_join outdir "weather_scatter.png"
    ∧ w' = {| fs := <[path := PngFile (scatter_figure rows precip_col)]> (fs w);
              heap := heap w ++ [WeatherFrame (zip_with set_precip rows precip_col)] |}.
Proof.
  unfold plot_weather_scatter.
  intros (df_plot & w1 & (f & Hdf & -> & ->)%frame_copy_inv & Hrun)%M_bind_inv.
  apply M_bind_inv in Hrun as (frame & w1 & [-> Hplot]%deref_inv & Hrun).
  cbn [heap] in Hplot. rewrite list_lookup_middle in Hplot by done.
  injection Hplot as <-.
  destruct f as [rows| | | | | |]; try done.
  apply M_bind_inv in Hrun as (col & w1 & [-> Hcol]%lift_inv & Hrun).
  apply M_bind_inv in Hrun as (u & w1 & ->%store_inv & Hrun).
  apply M_bind_inv in Hrun as (u' & w1 & ->%savefig_inv & [-> ->]%mret_inv).
  exists rows, col. cbn [fs heap]. by rewrite fresh_store.
Qed.

Lemma plot_global_temp_heatmap_inv (df : nat) (outdir path : string) (w w' : World) :
  plot_global_temp_heatmap df outdir w = Ok (path, w') →
  ∃ t long heatmap_data,
    heap w !! df = Some (GlobalFrame t)
    ∧ melt t months = Ok long
    ∧ global_heatmap_data t = Ok heatmap_data
    ∧ path = path_join outdir "global_temp_heatmap.png"
    ∧ w' = {| fs := <[path := PngFile (GlobalHeatmap heatmap_data)]> (fs w);
              heap := heap w ++ [LongNumFrame (add_MonthNum long)] |}.
Proof.
  unfold plot_global_temp_heatmap.
  intros (frame & w1 & [-> Hdf]%deref_inv & Hrun)%M_bind_inv.
  destruct frame as [| |t| | | |]; try done.
  apply M_bind_inv in Hrun as (long & w1 & [-> Hlong]%lift_inv & Hrun).
  apply M_bind_inv in Hrun as (df_long & w1 & [-> ->]%alloc_inv & Hrun).
  apply M_bind_inv in Hrun as (u & w1 & ->%store_inv & Hrun).
  apply M_bind_inv in Hrun as (M & w1 & [-> HM]%lift_inv & Hrun).
  apply M_bind_inv in Hrun as (u' & w1 & ->%savefig_inv & [-> ->]%mret_inv).
  exists t, long, M. cbn [fs heap]. by rewrite fresh_store.
Qed.

Lemma plot_minnesota_precip_line_inv (df : nat) (outdir path : string) (w w' : World) :
  plot_minnesota_precip_line df outdir w = Ok (path, w') →
  ∃ rows dates fig,
    heap w !! df = Some (MinnesotaFrame rows)
    ∧ to_datetime_rows rows = Ok dates
    ∧ path = path_join outdir "minnesota_precip_line.png"
    ∧ w' = {| fs := <[path := PngFile fig]> (fs w);
              heap := heap w ++ [MinnesotaDatedFrame (zip rows dates)] |}.
Proof.
  unfold plot_minnesota_precip_line.
  intros (df_plot & w1 & (f & Hdf & -> & ->)%frame_copy_inv & Hrun)%M_bind_inv.
  apply M_bind_inv in Hrun as (frame & w1 & [-> Hplot]%deref_inv & Hrun).
  cbn [heap] in Hplot. rewrite list_lookup_middle in Hplot by done.
  injection Hplot as <-.
  destruct f as [| | | | |rows|]; try done.
  apply M_bind_inv in Hrun as (dates & w1 & [-> Hdates]%lift_inv & Hrun).
  apply M_bind_inv in Hrun as (u & w1 & ->%store_inv & Hrun).
  apply M_bind_inv in Hrun as (u' & w1 & ->%savefig_inv & [-> ->]%mret_inv).
  exists rows, dates. eexists. cbn [fs heap]. by rewrite fresh_store.
Qed.
End Renderers.

(** C10.  Every renderer leaves the tables of its caller as they were:
    whatever table a reference held before the call, it holds after it,
    the input table included; the scatter and line renderers write to a
    copy they make, the two heatmap renderers write to no table of the
    caller.  So when the same weather table is passed to the heatmap and
    then to the scatter renderer, the scatter plot is the one of the
    table as it was before the first call, the same image a call on an
    independent copy of the table writes; and in the other order the
    heatmap is the one of the unchanged table. *)
Theorem renderers_keep_input_frames `{Backend} :
  (∀ w w' df outdir path,
     plot_weather_heatmap df outdir w = Ok (path, w')
     ∨ plot_weather_scatter df outdir w = Ok (path, w')
     ∨ plot_global_temp_heatmap df outdir w = Ok (path, w')
     ∨ plot_minnesota_precip_line df outdir w = Ok (path, w') →
     (∀ l f, heap w !! l = Some f → heap w' !! l = Some f)
     ∧ heap w' !! df = heap w !! df)
  ∧ (∀ w w1 w2 wc df df' outdir p1 p2 p2',
       plot_weather_heatmap df outdir w = Ok (p1, w1) →
       plot_weather_scatter df outdir w1 = Ok (p2, w2) →
       heap w !! df' = heap w !! df →
       plot_weather_scatter df' outdir w1 = Ok (p2', wc) →
       ∃ rows precip_col,
         heap w !! df = Some (WeatherFrame rows)
         ∧ coerce_precip str_to_float (precip <$> rows) = Ok precip_col
         ∧ fs w2 !! p2 = Some (PngFile (scatter_figure rows precip_col))
         ∧ heap w2 !! df = Some (WeatherFrame rows)
         ∧ p2' = p2 ∧ fs wc = fs w2)
  ∧ (∀ w w1 w2 df outdir p1 p2,
       plot_weather_scatter df outdir w = Ok (p1, w1) →
       plot_weather_heatmap df outdir w1 = Ok (p2, w2) →
       ∃ rows pivot_table,
         heap w !! df = Some (WeatherFrame rows)
         ∧ weather_heatmap_data rows = Ok pivot_table
         ∧ fs w2 !! p2 = Some (PngFile (WeatherHeatmap pivot_table))
         ∧ heap w2 !! df = Some (WeatherFrame rows)).
Proof.
  assert (∀ w w' df outdir path,
     plot_weather_heatmap df outdir w = Ok (path, w')
     ∨ plot_weather_scatter df outdir w = Ok (path, w')
     ∨ plot_global_temp_heatmap df outdir w = Ok (path, w')
     ∨ plot_minnesota_precip_line df outdir w = Ok (path, w') →
     ∀ l f, heap w !! l = Some f → heap w' !! l = Some f) as Hkept.
  { intros w w' df outdir path Hrun l f Hl.
    destruct Hrun as [Hrun|[Hrun|[Hrun|Hrun]]].
    - apply plot_weather_heatmap_inv in Hrun as (? & ? & _ & _ & _ & ->). done.
    - apply plot_weather_scatter_inv in Hrun as (? & ? & _ & _ & _ & ->).
      cbn [heap]. by rewrite lookup_app_l by (by eapply lookup_lt_Some).
    - apply plot_global_temp_heatmap_inv in Hrun as (? & ? & ? & _ & _ & _ & _ & ->).
      cbn [heap]. by rewrite lookup_app_l by (by eapply lookup_lt_Some).
    - apply plot_minnesota_precip_line_inv in Hrun as (? & ? & ? & _ & _ & _ & ->).
      cbn [heap]. by rewrite lookup_app_l by (by eapply lookup_lt_Some). }
  split_and!.
  - intros w w' df outdir path Hrun. split; [by eapply Hkept|].
    assert (is_Some (heap w !! df)) as [f Hf].
    { destruct Hrun as [Hrun|[Hrun|[Hrun|Hrun]]].
      - apply plot_weather_heatmap_inv in Hrun as (? & ? & -> & _). by eexists.
      - apply plot_weather_scatter_inv in Hrun as (? & ? & -> & _). by eexists.
      - apply plot_global_temp_heatmap_inv in Hrun as (? & ? & ? & -> & _). by eexists.
      - apply plot_minnesota_precip_line_inv in Hrun as (? & ? & ? & -> & _). by eexists. }
    rewrite Hf. by eapply Hkept.
  - intros w w1 w2 wc df df' outdir p1 p2 p2' Hheat Hscat Hcopy Hscat'.
    pose proof (Hkept _ _ _ _ _ (or_introl Hheat)) as Hk1.
    pose proof (Hkept _ _ _ _ _ (or_intror (or_introl Hscat))) as Hk2.
    apply plot_weather_heatmap_inv in Hheat as (rows & M & Hdf & _ & -> & ->).
    apply plot_weather_scatter_inv in Hscat as (rows' & col & Hdf' & Hcol & -> & ->).
    apply plot_weather_scatter_inv in Hscat' as (rows'' & col' & Hdf'' & Hcol' & -> & ->).
    cbn [heap fs] in *.
    assert (rows' = rows) as -> by congruence.
    assert (rows'' = rows) as -> by congruence.
    assert (col' = col) as -> by congruence.
    exists rows, col. split_and!; [done|done| |by apply Hk2, Hk1|done|done].
    cbn [fs]. by rewrite lookup_insert_eq.
  - intros w w1 w2 df outdir p1 p2 Hscat Hheat.
    pose proof (Hkept _ _ _ _ _ (or_intror (or_introl Hscat))) as Hk1.
    pose proof (Hkept _ _ _ _ _ (or_introl Hheat)) as Hk2.
    apply plot_weather_scatter_inv in Hscat as (rows & col & Hdf & Hcol & -> & ->).
    apply plot_weather_heatmap_inv in Hheat as (rows' & M & Hdf' & HM & -> & ->).
    cbn [heap fs] in *.
    rewrite lookup_app_l in Hdf' by (by eapply lookup_lt_Some).
    assert (rows' = rows) as -> by congruence.
    exists rows, M. split_and!; [done|done| |by apply Hk2, Hk1].
    by rewrite lookup_insert_eq.
Qed.

(** ** [main] from start to end *)

Lemma savefig_ok `{Backend} (fname : string) (fig : Figure) (w : World) :
  render_ok fig = true →
  path_isdir (fs w) (dirname fname) = true →
  fs w !! fname ≠ Some Dir →
  savefig fname fig w
  = Ok (tt, {| fs := <[fname := PngFile fig]> (fs w); heap := heap w |}).
Proof.
  intros Hr Hd Hf. unfold savefig. rewrite Hr, Hd.
  by destruct (fs w !! fname) as [[]|].
Qed.

Lemma read_csv_ok (path : string) (table : Frame) (w : World) :
  fs w !! path = Some (CsvFile table) →
  read_csv path w
  = Ok (length (heap w), {| fs := fs w; heap := heap w ++ [table] |}).
Proof. intros Hp. unfold read_csv. by rewrite Hp. Qed.

(** The files [main] needs once the output directory is there: the
    directory, the three tables, and no directory in the way of an
    image. *)
Definition staged (script : string) (weather : list WeatherRecord)
    (anomalies : GlobalTable Cell) (minnesota : list MinnesotaRecord)
    (files : gmap string Node) : Prop :=
  files !! output_dir script = Some Dir
  ∧ files !! path_join (data_dir script) "weather_data.csv"
    = Some (CsvFile (WeatherFrame weather))
  ∧ files !! path_join (data_dir script) "global_temp.csv"
    = Some (CsvFile (GlobalRawFrame anomalies))
  ∧ files !! path_join (data_dir script) "minnesota_weather.csv"
    = Some (CsvFile (MinnesotaFrame minnesota))
  ∧ ∀ name, name ∈ output_names →
      files !! path_join (output_dir script) name ≠ Some Dir.

Section Main.
Context `{Backend}.
Context (script : string) (weather : list WeatherRecord)
  (anomalies : GlobalTable Cell) (minnesota : list MinnesotaRecord).
Hypothesis Hrender : ∀ fig, render_ok fig = true.

Abbreviation staged_files := (staged script weather anomalies minnesota).
Abbreviation out_dir := (output_dir script).

Lemma image_not_data (name file : string) :
  name ∈ output_names → has_slash file = false → file ≠ "" →
  path_join (data_dir script) file ≠ path_join out_dir name.
Proof using Type.
  intros (Hn1 & Hn2 & _)%output_name_plain Hf1 Hf2 Heq.
  apply path_join_inj in Heq as [Heq _];
    [|apply data_dir_shaped|apply output_dir_shaped|done..].
  by apply output_dir_not_data_dir in Heq.
Qed.

Lemma image_not_out_dir (name : string) :
  name ∈ output_names → out_dir ≠ path_join out_dir name.
Proof using Type.
  intros (Hn1 & Hn2 & Hn3)%output_name_plain Heq. unfold output_dir at 1 in Heq.
  apply path_join_inj in Heq as [_ Heq];
    [by subst|apply dirname_shaped|apply output_dir_shaped|done..].
Qed.

Lemma staged_insert_image (files : gmap string Node) (name : string) (fig : Figure) :
  staged_files files → name ∈ output_names →
  staged_files (<[path_join out_dir name := PngFile fig]> files).
Proof using Type.
  intros (Hout & Hw & Hg & Hm & Himg) Hname. unfold staged. split_and!.
  - rewrite lookup_insert_ne; [done|]. intros Heq. by eapply image_not_out_dir.
  - rewrite lookup_insert_ne; [done|]. intros Heq. symmetry in Heq.
    by eapply image_not_data in Heq.
  - rewrite lookup_insert_ne; [done|]. intros Heq. symmetry in Heq.
    by eapply image_not_data in Heq.
  - rewrite lookup_insert_ne; [done|]. intros Heq. symmetry in Heq.
    by eapply image_not_data in Heq.
  - intros name' Hname'. rewrite lookup_insert. case_decide; [done|by apply Himg].
Qed.

Lemma savefig_staged (name : string) (fig : Figure) (w : World) :
  staged_files (fs w) → name ∈ output_names →
  savefig (path_join out_dir name) fig w
  = Ok (tt, {| fs := <[path_join out_dir name := PngFile fig]> (fs w);
               heap := heap w |}).
Proof using Hrender.
  intros (Hout & _ & _ & _ & Himg) Hname.
  pose proof (output_name_plain name Hname) as (Hn1 & Hn2 & _).
  apply savefig_ok; [done| |by apply Himg].
  rewrite dirname_join; [|apply output_dir_shaped|done..].
  unfold path_isdir. rewrite lookup_path_output_dir, Hout. by rewrite orb_true_r.
Qed.

Lemma ensure_output_dir_ok (w : World) :
  dirname (dirname script) = "" ∨ path_isdir (fs w) (dirname (dirname script)) = true →
  fs w !! out_dir = None ∨ fs w !! out_dir = Some Dir →
  ensure_output_dir out_dir w
  = Ok (tt, {| fs := <[out_dir := Dir]> (fs w); heap := heap w |}).
Proof using Type.
  intros Hbase [Hout|Hout].
  - by apply ensure_output_dir_creates.
  - rewrite ensure_output_dir_exists by done. rewrite insert_id by done.
    by destruct w.
Qed.
Lemma plot_weather_heatmap_ok (df : nat) (rows : list WeatherRecord) (w : World) :
  heap w !! df = Some (WeatherFrame rows) → staged_files (fs w) →
  ∃ fig,
    plot_weather_heatmap df out_dir w
    = Ok (path_join out_dir "weather_heatmap.png",
          {| fs := <[path_join out_dir "weather_heatmap.png" := PngFile fig]> (fs w);
             heap := heap w |}).
Proof using Hrender.
  intros Hdf Hst.
  destruct (weather_heatmap_data rows) as [M|e] eqn:HM;
    [|by rewrite weather_heatmap_data_eq in HM].
  exists (WeatherHeatmap M).
  unfold plot_weather_heatmap.
  erewrite M_bind_Ok by (unfold deref; by rewrite Hdf). cbv beta iota.
  erewrite M_bind_Ok by (unfold lift; by rewrite HM).
  erewrite M_bind_Ok; [done|].
  apply savefig_staged; [done|]. unfold output_names. rewrite !elem_of_cons. tauto.
Qed.

Lemma plot_weather_scatter_ok (df : nat) (rows : list WeatherRecord) (w : World) :
  heap w !! df = Some (WeatherFrame rows) → staged_files (fs w) →
  ∃ fig frame,
    plot_weather_scatter df out_dir w
    = Ok (path_join out_dir "weather_scatter.png",
          {| fs := <[path_join out_dir "weather_scatter.png" := PngFile fig]> (fs w);
             heap := heap w ++ [frame] |}).
Proof using Hrender.
  intros Hdf Hst.
  pose proof (coerce_precip_total str_to_float (precip <$> rows)) as Hcol.
  set (col := fillna 0 (coerced str_to_float <$> (precip <$> rows))) in Hcol.
  exists (scatter_figure rows col), (WeatherFrame (zip_with set_precip rows col)).
  unfold plot_weather_scatter.
  erewrite M_bind_Ok;
    [|unfold frame_copy; erewrite M_bind_Ok by (unfold deref; by rewrite Hdf); done].
  erewrite M_bind_Ok;
    [|unfold deref; cbn [heap]; by rewrite list_lookup_middle].
  cbv beta iota.
  erewrite M_bind_Ok by (unfold lift; by rewrite Hcol).
  erewrite M_bind_Ok by done.
  erewrite M_bind_Ok;
    [|apply savefig_staged; [done|unfold output_names; rewrite !elem_of_cons; tauto]].
  cbn [fs heap]. by rewrite fresh_store.
Qed.

Lemma load_global_ok (df : nat) (w : World) :
  heap w !! df = Some (GlobalRawFrame anomalies) →
  ∃ t, preprocess_global str_to_float anomalies = Ok t
       ∧ load_global df w
         = Ok (length (heap w), {| fs := fs w; heap := heap w ++ [GlobalFrame t] |}).
Proof using Type.
  intros Hdf. eexists. split; [apply preprocess_global_total|].
  unfold load_global.
  erewrite M_bind_Ok by (unfold deref; by rewrite Hdf). cbv beta iota.
  erewrite M_bind_Ok by done.
  erewrite M_bind_Ok;
    [|unfold lift; fold (preprocess_global str_to_float anomalies);
      by rewrite preprocess_global_total].
  erewrite M_bind_Ok by done.
  unfold mret, M_ret. cbn [fs heap]. by rewrite fresh_store.
Qed.

Lemma plot_global_temp_heatmap_ok (df : nat) (t : GlobalTable float) (w : World) :
  heap w !! df = Some (GlobalFrame t) → staged_files (fs w) →
  NoDup (Year t) →
  (∀ m, m ∈ months →
     ∃ col, get_column m (data_columns t) = Ok col ∧ length col = length (Year t)) →
  ∃ fig frame,
    plot_global_temp_heatmap df out_dir w
    = Ok (path_join out_dir "global_temp_heatmap.png",
          {| fs := <[path_join out_dir "global_temp_heatmap.png" := PngFile fig]> (fs w);
             heap := heap w ++ [frame] |}).
Proof using Hrender.
  intros Hdf Hst Hyears Hcols.
  destruct (global_reshape_cells t Hyears Hcols) as (M & HM & _).
  destruct (melt t months) as [long|] eqn:Hlong;
    [|unfold global_heatmap_data in HM; by rewrite Hlong in HM].
  exists (GlobalHeatmap M), (LongNumFrame (add_MonthNum long)).
  unfold plot_global_temp_heatmap.
  erewrite M_bind_Ok by (unfold deref; by rewrite Hdf). cbv beta iota.
  erewrite M_bind_Ok by (unfold lift; by rewrite Hlong).
  erewrite M_bind_Ok by done.
  erewrite M_bind_Ok by done.
  erewrite M_bind_Ok by (unfold lift; by rewrite HM).
  erewrite M_bind_Ok;
    [|apply savefig_staged; [done|unfold output_names; rewrite !elem_of_cons; tauto]].
  cbn [fs heap]. by rewrite fresh_store.
Qed.

Lemma plot_minnesota_precip_line_ok (df : nat) (rows : list MinnesotaRecord) (w : World) :
  heap w !! df = Some (MinnesotaFrame rows) → staged_files (fs w) →
  Forall (λ r, 1 ≤ mo r ≤ 12) rows → Forall (λ r, 1678 ≤ year r ≤ 2261) rows →
  ∃ fig frame,
    plot_minnesota_precip_line df out_dir w
    = Ok (path_join out_dir "minnesota_precip_line.png",
          {| fs := <[path_join out_dir "minnesota_precip_line.png" := PngFile fig]> (fs w);
             heap := heap w ++ [frame] |}).
Proof using Hrender.
  intros Hdf Hst Hmo Hyear.
  destruct (to_datetime_rows_total rows Hmo Hyear) as [dates Hdates].
  eexists _, (MinnesotaDatedFrame (zip rows dates)).
  unfold plot_minnesota_precip_line.
  erewrite M_bind_Ok;
    [|unfold frame_copy; erewrite M_bind_Ok by (unfold deref; by rewrite Hdf); done].
  erewrite M_bind_Ok;
    [|unfold deref; cbn [heap]; by rewrite list_lookup_middle].
  cbv beta iota.
  erewrite M_bind_Ok by (unfold lift; by rewrite Hdates).
  erewrite M_bind_Ok by done.
  erewrite M_bind_Ok;
    [|apply savefig_staged; [done|unfold output_names; rewrite !elem_of_cons; tauto]].
  cbn [fs heap]. by rewrite fresh_store.
Qed.
Lemma image_paths_differ (n1 n2 : string) :
  n1 ∈ output_names → n2 ∈ output_names → n1 ≠ n2 →
  path_join out_dir n1 ≠ path_join out_dir n2.
Proof using Type.
  intros (? & ? & _)%output_name_plain (? & ? & _)%output_name_plain Hne Heq.
  apply path_join_inj in Heq as [_ Heq]; [done|apply output_dir_shaped..|done|done|done|done].
Qed.
End Main.

(** C4.  Let the directory two levels above the script exist, let the
    output directory be absent or a directory, let the three CSV files be
    tables of the expected shape (distinct years and the twelve month
    columns in the anomaly table, months 1 to 12 and years 1678 to 2261
    in the Minnesota table), let no directory sit at the path of an
    image, and let the plotting library draw every figure.  Then [main]
    first makes sure the output directory exists (creating it when it is
    absent, changing nothing when it is there), and returns exactly the
    four paths [weather_heatmap.png], [weather_scatter.png],
    [global_temp_heatmap.png], [minnesota_precip_line.png], in this
    order, each joined onto the output directory; afterwards the output
    directory exists and holds the four images. *)
Theorem main_returns_four_paths `{Backend} (script : string)
    (weather : list WeatherRecord) (anomalies : GlobalTable Cell)
    (minnesota : list MinnesotaRecord) (w : World) :
  let base := dirname (dirname script) in
  let out := path_join base "output" in
  let data := path_join base "data" in
  (∀ fig, render_ok fig = true) →
  base = "" ∨ path_isdir (fs w) base = true →
  fs w !! out = None ∨ fs w !! out = Some Dir →
  fs w !! path_join data "weather_data.csv" = Some (CsvFile (WeatherFrame weather)) →
  fs w !! path_join data "global_temp.csv" = Some (CsvFile (GlobalRawFrame anomalies)) →
  fs w !! path_join data "minnesota_weather.csv"
    = Some (CsvFile (MinnesotaFrame minnesota)) →
  (∀ name, name ∈ output_names → fs w !! path_join out name ≠ Some Dir) →
  NoDup (Year anomalies) →
  (∀ m, m ∈ months →
     ∃ col, get_column m (data_columns anomalies) = Ok col
            ∧ length col = length (Year anomalies)) →
  Forall (λ r, 1 ≤ mo r ≤ 12 ∧ 1678 ≤ year r ≤ 2261) minnesota →
  ∃ w1 w',
    ensure_output_dir out w = Ok (tt, w1)
    ∧ fs w1 !! out = Some Dir
    ∧ (fs w !! out = Some Dir → w1 = w)
    ∧ (fs w !! out = None → fs w1 = <[out := Dir]> (fs w))
    ∧ main script w
      = Ok ([ path_join out "weather_heatmap.png";
              path_join out "weather_scatter.png";
              path_join out "global_temp_heatmap.png";
              path_join out "minnesota_precip_line.png" ], w')
    ∧ fs w' !! out = Some Dir
    ∧ ∀ name, name ∈ output_names →
        ∃ fig, fs w' !! path_join out name = Some (PngFile fig).
Proof.
  intros base out data Hrender Hbase Hout Hweather Hglobal Hminn
    Himg Hyears Hcols Hrows.
  fold (output_dir script) in out. fold (data_dir script) in data.
  subst out data base.
  pose proof (ensure_output_dir_ok script w Hbase Hout) as Hens.
  set (w1 := {| fs := <[output_dir script := Dir]> (fs w); heap := heap w |}) in *.
  assert (staged script weather anomalies minnesota (fs w1)) as Hst1.
  { unfold staged, w1; cbn [fs]. split_and!.
    - by rewrite lookup_insert_eq.
    - rewrite lookup_insert_ne; [done|]. intros Heq.
      unfold output_dir at 1 in Heq.
      apply path_join_inj in Heq as [_ Heq];
        [done|apply dirname_shaped|apply data_dir_shaped|done..].
    - rewrite lookup_insert_ne; [done|]. intros Heq.
      unfold output_dir at 1 in Heq.
      apply path_join_inj in Heq as [_ Heq];
        [done|apply dirname_shaped|apply data_dir_shaped|done..].
    - rewrite lookup_insert_ne; [done|]. intros Heq.
      unfold output_dir at 1 in Heq.
      apply path_join_inj in Heq as [_ Heq];
        [done|apply dirname_shaped|apply data_dir_shaped|done..].
    - intros name Hname. rewrite lookup_insert_ne; [by apply Himg|].
      by apply image_not_out_dir. }
  (* the weather table *)
  pose proof (read_csv_ok _ _ w1 (proj1 (proj2 Hst1))) as Hread1.
  set (w2 := {| fs := fs w1; heap := heap w1 ++ [WeatherFrame weather] |}) in *.
  assert (heap w2 !! length (heap w1) = Some (WeatherFrame weather)) as Hdf
    by (by apply list_lookup_middle).
  destruct (plot_weather_heatmap_ok script weather anomalies minnesota Hrender
              _ _ w2 Hdf Hst1) as (fig1 & Hplot1).
  set (w3 := {| fs := <[_ := PngFile fig1]> (fs w2); heap := heap w2 |}) in *.
  assert (staged script weather anomalies minnesota (fs w3)) as Hst3.
  { apply staged_insert_image; [done|]. unfold output_names.
    rewrite !elem_of_cons. tauto. }
  destruct (plot_weather_scatter_ok script weather anomalies minnesota Hrender
              _ _ w3 Hdf Hst3) as (fig2 & frame2 & Hplot2).
  set (w4 := {| fs := <[_ := PngFile fig2]> (fs w3); heap := heap w3 ++ [frame2] |}) in *.
  assert (staged script weather anomalies minnesota (fs w4)) as Hst4.
  { apply staged_insert_image; [done|]. unfold output_names.
    rewrite !elem_of_cons. tauto. }
  (* the anomaly table *)
  pose proof (read_csv_ok _ _ w4 (proj1 (proj2 (proj2 Hst4)))) as Hread2.
  set (w5 := {| fs := fs w4; heap := heap w4 ++ [GlobalRawFrame anomalies] |}) in *.
  destruct (load_global_ok anomalies (length (heap w4)) w5) as (t & Ht & Hload).
  { by apply list_lookup_middle. }
  set (w6 := {| fs := fs w5; heap := heap w5 ++ [GlobalFrame t] |}) in *.
  assert (NoDup (Year t) ∧ ∀ m, m ∈ months →
            ∃ col, get_column m (data_columns t) = Ok col
                   ∧ length col = length (Year t)) as [Hyears' Hcols'].
  { rewrite preprocess_global_total in Ht. injection Ht as <-. cbn [Year data_columns].
    split; [done|]. intros m Hm. destruct (Hcols m Hm) as (col & Hcol & Hlen).
    exists (preprocessed str_to_float <$> col).
    by rewrite get_column_fmap, Hcol, length_fmap. }
  destruct (plot_global_temp_heatmap_ok script weather anomalies minnesota Hrender
              (length (heap w5)) t w6) as (fig3 & frame3 & Hplot3);
    [by apply list_lookup_middle|done|done|done|].
  set (w7 := {| fs := <[_ := PngFile fig3]> (fs w6); heap := heap w6 ++ [frame3] |}) in *.
  assert (staged script weather anomalies minnesota (fs w7)) as Hst7.
  { apply staged_insert_image; [done|]. unfold output_names.
    rewrite !elem_of_cons. tauto. }
  (* the Minnesota table *)
  pose proof (read_csv_ok _ _ w7 (proj1 (proj2 (proj2 (proj2 Hst7))))) as Hread3.
  set (w8 := {| fs := fs w7; heap := heap w7 ++ [MinnesotaFrame minnesota] |}) in *.
  destruct (plot_minnesota_precip_line_ok script weather anomalies minnesota Hrender
              (length (heap w7)) minnesota w8) as (fig4 & frame4 & Hplot4);
    [by apply list_lookup_middle|done| | |].
  { eapply Forall_impl; [exact Hrows|]. by intros r [? _]. }
  { eapply Forall_impl; [exact Hrows|]. by intros r [_ ?]. }
  set (w9 := {| fs := <[_ := PngFile fig4]> (fs w8); heap := heap w8 ++ [frame4] |}) in *.
  exists w1, w9. split_and!.
  - exact Hens.
  - apply Hst1.
  - intros Hdir. unfold w1. rewrite insert_id by done. by destruct w.
  - done.
  - unfold main. fold (output_dir script) (data_dir script).
    erewrite M_bind_Ok by exact Hens.
    erewrite M_bind_Ok by exact Hread1.
    erewrite M_bind_Ok by exact Hplot1.
    erewrite M_bind_Ok by exact Hplot2.
    erewrite M_bind_Ok by exact Hread2.
    erewrite M_bind_Ok by exact Hload.
    erewrite M_bind_Ok by exact Hplot3.
    erewrite M_bind_Ok by exact Hread3.
    erewrite M_bind_Ok by exact Hplot4.
    done.
  - assert (staged script weather anomalies minnesota (fs w9)) as Hst9.
    { apply staged_insert_image; [done|]. unfold output_names.
      rewrite !elem_of_cons. tauto. }
    apply Hst9.
  - intros name Hname. unfold w9, w8, w7, w6, w5, w4, w3, w2; cbn [fs].
    unfold output_names in Hname.
    repeat (apply elem_of_cons in Hname as [->|Hname]);
      [..|by apply elem_of_nil in Hname];
      repeat first
        [ rewrite lookup_insert_eq; by eexists
        | rewrite lookup_insert_ne
            by (apply image_paths_differ;
                  [unfold output_names; rewrite !elem_of_cons; tauto..|done]) ].
Qed.

(** ** A sample run *)

Definition sample_weather : list WeatherRecord :=
  [ {| city := "Christchurch"; month := 2; avg_temp := Some 61%Q; avg_humidity := Some 66%Q;
       precip := CNum (1 # 10) |};
    {| city := "Auckland"; month := 1; avg_temp := Some 68%Q; avg_humidity := Some 74%Q;
       precip := CStr "T" |};
    {| city := "Christchurch"; month := 2; avg_temp := Some 64%Q; avg_humidity := Some 70%Q;
       precip := CNA |};
    {| city := "Auckland"; month := 3; avg_temp := Some 66%Q; avg_humidity := Some 81%Q;
       precip := CStr "0.5" |} ].

(** The anomaly file as it is read: 1881 has the sentinel in July. *)
Definition sample_raw_anomalies : GlobalTable Cell :=
  {| Year := [1880; 1881];
     data_columns :=
       (λ m, (m, if decide (m = "Jul")
                 then [CNum (-18 # 100); CStr "***"]
                 else [CNum (-17 # 100); CStr "0.5"])) <$> months |}.

Definition sample_script : string := "/repo/src/create_visualizations.py".

Definition sample_world : World :=
  {| fs := list_to_map
             [ ("/repo", Dir); ("/repo/data", Dir);
               ("/repo/data/weather_data.csv", CsvFile (WeatherFrame sample_weather));
               ("/repo/data/global_temp.csv", CsvFile (GlobalRawFrame sample_raw_anomalies));
               ("/repo/data/minnesota_weather.csv",
                CsvFile (MinnesotaFrame sample_minnesota)) ];
     heap := [] |}.

Lemma main_returns_four_paths_witness :
  ∃ w', @main sample_backend sample_script sample_world
        = Ok ([ "/repo/output/weather_heatmap.png";
                "/repo/output/weather_scatter.png";
                "/repo/output/global_temp_heatmap.png";
                "/repo/output/minnesota_precip_line.png" ], w')
        ∧ fs sample_world !! "/repo/output" = None
        ∧ fs w' !! "/repo/output" = Some Dir.
Proof.
  destruct (@main_returns_four_paths sample_backend sample_script sample_weather
              sample_raw_anomalies sample_minnesota sample_world)
    as (w1 & w' & _ & _ & _ & _ & Hmain & Hdir & _).
  - intros fig. reflexivity.
  - right. by vm_compute.
  - left. by vm_compute.
  - by vm_compute.
  - by vm_compute.
  - by vm_compute.
  - intros name Hname. unfold output_names in Hname.
    repeat (apply elem_of_cons in Hname as [->|Hname]; [by vm_compute|]).
    by apply elem_of_nil in Hname.
  - apply (bool_decide_unpack _). by vm_compute.
  - intros m Hm.
    repeat (apply elem_of_cons in Hm as [->|Hm]; [eexists; split; reflexivity|]).
    by apply elem_of_nil in Hm.
  - repeat constructor; simpl; lia.
  - exists w'. split_and!; [exact Hmain|by vm_compute|exact Hdir].
Defined.

Definition sample_memory : World :=
  {| fs := {[ "/out" := Dir ]}; heap := [WeatherFrame sample_weather] |}.

Lemma renderers_keep_input_frames_witness :
  ∃ p1 w1 p2 w2,
    @plot_weather_heatmap sample_backend 0 "/out" sample_memory = Ok (p1, w1)
    ∧ @plot_weather_scatter sample_backend 0 "/out" w1 = Ok (p2, w2)
    ∧ heap w2 !! 0%nat = Some (WeatherFrame sample_weather)
    ∧ heap w2 !! 1%nat ≠ Some (WeatherFrame sample_weather).
Proof.
  destruct (@plot_weather_heatmap sample_backend 0 "/out" sample_memory)
    as [[p1 w1]|e] eqn:E1; [|by vm_compute in E1].
  destruct (@plot_weather_scatter sample_backend 0 "/out" w1)
    as [[p2 w2]|e] eqn:E2.
  - exists p1, w1, p2, w2. split_and!; [done|done| |].
    + destruct (@renderers_keep_input_frames sample_backend) as (Hkept & _ & _).
      destruct (Hkept _ _ 0%nat _ _ (or_introl E1)) as [_ H1].
      destruct (Hkept _ _ 0%nat _ _ (or_intror (or_introl E2))) as [_ H2].
      rewrite H2, H1. reflexivity.
    + vm_compute in E1. injection E1 as <- <-.
      vm_compute in E2. injection E2 as <- <-. by vm_compute.
  - vm_compute in E1. injection E1 as <- <-. by vm_compute in E2.
Defined.

(** A weather table with gaps: one February day in Christchurch and the
    only January day in Auckland have no temperature. *)
Definition sample_weather_gaps : list WeatherRecord :=
  [ {| city := "Christchurch"; month := 2; avg_temp := Some 61%Q;
       avg_humidity := Some 66%Q; precip := CNum (1 # 10) |};
    {| city := "Christchurch"; month := 2; avg_temp := NaN;
       avg_humidity := Some 68%Q; precip := CNum 0 |};
    {| city := "Auckland"; month := 1; avg_temp := NaN;
       avg_humidity := Some 74%Q; precip := CStr "T" |};
    {| city := "Christchurch"; month := 2; avg_temp := Some 64%Q;
       avg_humidity := Some 70%Q; precip := CNA |};
    {| city := "Auckland"; month := 3; avg_temp := Some 66%Q;
       avg_humidity := NaN; precip := CStr "0.5" |} ].

Lemma weather_heatmap_matrix_witness :
  ∃ M, weather_heatmap_data sample_weather_gaps = Ok M
       ∧ index M = ["Auckland"; "Christchurch"]
       ∧ columns M = [1; 2; 3]
       ∧ loc M "Christchurch" 2 = Some (Some (125 # 2)%Q)
       ∧ loc M "Auckland" 1 = Some NaN
       ∧ loc M "Christchurch" 1 = Some NaN.
Proof.
  destruct (weather_heatmap_matrix sample_weather_gaps) as (M & HM & _).
  exists M. split; [exact HM|].
  vm_compute in HM. injection HM as <-. by vm_compute.
Defined.

Lemma weather_pivot_no_duplicate_error_witness :
  length (filter (λ r, city r = "Christchurch" ∧ month r = 2) sample_weather) = 2%nat
  ∧ ∃ M, pivot (groupby_city_month_mean sample_weather) = Ok M.
Proof.
  split; [by vm_compute|].
  exact (proj1 (proj2 (weather_pivot_no_duplicate_error sample_weather))).
Defined.

Lemma scatter_precip_coercion_witness :
  coerce_precip (@str_to_float sample_backend) (precip <$> sample_weather)
  = Ok [(1 # 10)%Q; 0%Q; 0%Q; (1 # 2)%Q].
Proof.
  destruct (@scatter_precip_coercion sample_backend sample_weather)
    as (col & Hcol & _).
  rewrite Hcol. vm_compute in Hcol. injection Hcol as <-. reflexivity.
Defined.

Lemma global_coercion_never_fails_witness :
  ∃ t, preprocess_global (@str_to_float sample_backend) sample_raw_anomalies = Ok t
       ∧ get_column "Jul" (data_columns t) = Ok [Some (-18 # 100)%Q; NaN]
       ∧ get_column "Jun" (data_columns t) = Ok [Some (-17 # 100)%Q; Some (1 # 2)%Q].
Proof.
  destruct (@global_coercion_never_fails sample_backend sample_raw_anomalies)
    as (t & Ht & _).
  exists t. split; [exact Ht|].
  vm_compute in Ht. injection Ht as <-. by vm_compute.
Defined.

(** * Further properties of the script *)

(** ** Marker areas of the scatter plot (lines 116-133) *)














(** ** The colour legend of the scatter plot (lines 140-148) *)

Lemma elem_of_first_seen (seen xs : list string) (x : string) :
  x ∈ first_seen seen xs ↔ x ∈ xs ∧ x ∉ seen.
Proof.
  revert seen. induction xs as [|y xs IH]; intros seen; simpl.
  - rewrite elem_of_nil. tauto.
  - destruct (decide (y ∈ seen)) as [Hy|Hy].
    + rewrite IH, elem_of_cons. split; [tauto|].
      intros [[->|Hx] Hns]; [done|tauto].
    + rewrite !elem_of_cons, IH, not_elem_of_cons. split.
      * intros [->|(Hx & Hne & Hns)]; tauto.
      * intros [[->|Hx] Hns]; [tauto|].
        destruct (decide (x = y)) as [->|Hne]; tauto.
Qed.

Lemma first_seen_NoDup (seen xs : list string) : NoDup (first_seen seen xs).
Proof.
  revert seen. induction xs as [|y xs IH]; intros seen; simpl; [constructor|].
  destruct (decide (y ∈ seen)); [apply IH|].
  constructor; [|apply IH].
  rewrite elem_of_first_seen, not_elem_of_cons. tauto.
Qed.

Lemma first_seen_sublist (seen xs : list string) : sublist (first_seen seen xs) xs.
Proof.
  revert seen. induction xs as [|y xs IH]; intros seen; simpl; [constructor|].
  destruct (decide (y ∈ seen)); [by apply sublist_cons|by apply sublist_skip].
Qed.

(** Of two names of the list, the one that stands first occurs in [xs]
    before every occurrence of the other. *)
Lemma first_seen_order (seen xs : list string) (i j : nat) (c1 c2 : string) :
  first_seen seen xs !! i = Some c1 → first_seen seen xs !! j = Some c2 →
  (i < j)%nat →
  ∃ k, xs !! k = Some c1 ∧ ∀ k', (k' ≤ k)%nat → xs !! k' ≠ Some c2.
Proof.
  revert seen i j. induction xs as [|x xs IH]; intros seen i j; simpl; [done|].
  destruct (decide (x ∈ seen)) as [Hx|Hx].
  - intros Hi Hj Hlt. destruct (IH seen i j Hi Hj Hlt) as (k & Hk & Hno).
    exists (S k). split; [done|]. intros [|k'] Hle; simpl.
    + intros [= ->]. apply list_elem_of_lookup_2, elem_of_first_seen in Hj. tauto.
    + apply Hno. lia.
  - destruct i as [|i], j as [|j]; simpl; try (intros; lia).
    + intros [= <-] Hj _. exists 0%nat. split; [done|]. intros k' Hle.
      assert (k' = 0%nat) as -> by lia. simpl. intros [= ->].
      apply list_elem_of_lookup_2, elem_of_first_seen in Hj.
      rewrite not_elem_of_cons in Hj. tauto.
    + intros Hi Hj Hlt.
      destruct (IH (x :: seen) i j Hi Hj) as (k & Hk & Hno); [lia|].
      exists (S k). split; [done|]. intros [|k'] Hle; simpl.
      * intros [= ->]. apply list_elem_of_lookup_2, elem_of_first_seen in Hj.
        rewrite not_elem_of_cons in Hj. tauto.
      * apply Hno. lia.
Qed.

(** The colour legend names every city of the table exactly once, in the
    order in which the cities first appear in the rows: of two entries,
    the earlier one is a city that has a row before every row of the
    later one (so the city of the first row comes first).  The [j]-th
    entry gets position [j] of a palette that has one colour per city:
    no two cities share a position. *)
Theorem city_legend_one_entry_per_city (rows : list WeatherRecord)
    (precip_col : list Q) (pts : list ScatterPoint)
    (city_handles : list (string * nat)) (size_handles : list (Q * Q)) :
  scatter_figure rows precip_col = WeatherScatter pts city_handles size_handles →
  NoDup city_handles.*1
  ∧ (∀ c, c ∈ city_handles.*1 ↔ ∃ r, r ∈ rows ∧ city r = c)
  ∧ sublist city_handles.*1 (city <$> rows)
  ∧ (∀ i j c1 c2, city_handles.*1 !! i = Some c1 → city_handles.*1 !! j = Some c2 →
       (i < j)%nat →
       ∃ k, (city <$> rows) !! k = Some c1
            ∧ ∀ k', (k' ≤ k)%nat → (city <$> rows) !! k' ≠ Some c2)
  ∧ (∀ r rows', rows = r :: rows' → city_handles !! 0%nat = Some (city r, 0%nat))
  ∧ (∀ j c i, city_handles !! j = Some (c, i) →
       i = j ∧ (i < length city_handles)%nat)
  ∧ NoDup city_handles.*2.
Proof.
  intros [= _ <- _].
  set (names := first_seen [] (city <$> rows)).
  assert (∀ j c i, imap (λ i c, (c, (i mod length names)%nat)) names !! j = Some (c, i) →
            names !! j = Some c ∧ i = j) as Hlook.
  { intros j c i. rewrite list_lookup_imap.
    destruct (names !! j) as [c'|] eqn:Ej; simpl; [|done]. intros [= -> <-].
    split; [done|]. apply Nat.mod_small. by eapply lookup_lt_Some. }
  assert ((imap (λ i c, (c, (i mod length names)%nat)) names).*1 = names) as Hfst.
  { apply list_eq. intros j. rewrite list_lookup_fmap, list_lookup_imap.
    by destruct (names !! j). }
  split_and!.
  - rewrite Hfst. apply first_seen_NoDup.
  - intros c. rewrite Hfst. unfold names.
    rewrite elem_of_first_seen, list_elem_of_fmap, elem_of_nil. split.
    + intros [(r & -> & Hr) _]. by exists r.
    + intros (r & Hr & <-). split; [by exists r|tauto].
  - rewrite Hfst. apply first_seen_sublist.
  - rewrite Hfst. apply first_seen_order.
  - intros r rows' ->. rewrite list_lookup_imap. unfold names. simpl.
    by rewrite Nat.sub_diag.
  - intros j c i Hj. destruct (Hlook j c i Hj) as [Hc ->]. split; [done|].
    rewrite length_imap. by eapply lookup_lt_Some.
  - apply NoDup_alt. intros j1 j2 i.
    rewrite !list_lookup_fmap.
    destruct (imap _ names !! j1) as [[c1 i1]|] eqn:E1; simpl; [|done].
    destruct (imap _ names !! j2) as [[c2 i2]|] eqn:E2; simpl; [|done].
    intros [= ->] [= ->].
    destruct (Hlook _ _ _ E1) as [_ ->]. by destruct (Hlook _ _ _ E2) as [_ ->].
Qed.

Lemma city_legend_one_entry_per_city_witness :
  ∃ pts ch sh,
    scatter_figure sample_weather [(1 # 10)%Q; 0%Q; 0%Q; (1 # 2)%Q]
    = WeatherScatter pts ch sh
    ∧ city <$> sample_weather
      = ["Christchurch"; "Auckland"; "Christchurch"; "Auckland"]
    ∧ ch = [("Christchurch", 0%nat); ("Auckland", 1%nat)]
    ∧ NoDup ch.*1.
Proof.
  destruct (scatter_figure sample_weather [(1 # 10)%Q; 0%Q; 0%Q; (1 # 2)%Q])
    as [|pts ch sh| |] eqn:E; try (by vm_compute in E).
  exists pts, ch, sh. split; [done|]. split; [done|]. split.
  - vm_compute in E. by injection E as _ <- _.
  - exact (proj1 (city_legend_one_entry_per_city _ _ _ _ _ E)).
Defined.

(** ** The 95th percentile cutoff (line 116) *)

Section SortByFacts.
Context {K A : Type} (cmp : K → K → comparison) (key : A → K).

Lemma elem_of_insert_by (x y : A) (l : list A) :
  y ∈ insert_by cmp key x l ↔ y = x ∨ y ∈ l.
Proof.
  induction l as [|z l IH]; simpl.
  - rewrite list_elem_of_singleton, elem_of_nil. tauto.
  - destruct (cmp (key x) (key z)); rewrite ?elem_of_cons, ?IH; tauto.
Qed.

Lemma elem_of_sort_by (y : A) (l : list A) : y ∈ sort_by cmp key l ↔ y ∈ l.
Proof.
  induction l as [|x l IH]; simpl; [done|].
  rewrite elem_of_insert_by, IH, elem_of_cons. tauto.
Qed.

Lemma length_insert_by (x : A) (l : list A) :
  length (insert_by cmp key x l) = S (length l).
Proof.
  induction l as [|z l IH]; simpl; [done|].
  destruct (cmp (key x) (key z)); simpl; by rewrite ?IH.
Qed.

Lemma length_sort_by (l : list A) : length (sort_by cmp key l) = length l.
Proof.
  induction l as [|x l IH]; simpl; [done|]. by rewrite length_insert_by, IH.
Qed.
End SortByFacts.

Lemma Qsort_sorted (l : list Q) : StronglySorted Qle (sort_by Qcompare id l).
Proof.
  induction l as [|x l IH]; simpl; [constructor|].
  induction IH as [|z l' Hl' IH' Hz]; simpl; [repeat constructor|].
  destruct (Qcompare_spec x z) as [Heq|Hlt|Hgt]; simpl.
  - constructor; [by constructor|]. constructor; [lra|].
    eapply Forall_impl; [exact Hz|]. intros w Hw. simpl in Hw. lra.
  - constructor; [by constructor|]. constructor; [lra|].
    eapply Forall_impl; [exact Hz|]. intros w Hw. simpl in Hw. lra.
  - constructor; [done|]. apply Forall_forall. intros w Hw.
    apply elem_of_insert_by in Hw as [->|Hw]; [lra|].
    by eapply Forall_forall in Hz.
Qed.

Lemma sorted_nth_le (l : list Q) (d : Q) (i j : nat) :
  StronglySorted Qle l → (i <= j < length l)%nat → (nth i l d <= nth j l d)%Q.
Proof.
  intros Hs. revert i j. induction Hs as [|x l Hl IH Hx]; intros i j Hij;
    [simpl in Hij; lia|].
  destruct i as [|i], j as [|j]; simpl in *; [lra| |lia|apply IH; lia].
  eapply Forall_forall in Hx; [exact Hx|].
  apply list_elem_of_In, nth_In. lia.
Qed.

(** A quantile of a column lies between two of its values. *)
Lemma quantile_in_range (q : Q) (col : list Q) (lo hi : Q) :
  col ≠ [] → (0 <= q <= 1)%Q → (∀ x, x ∈ col → (lo <= x <= hi)%Q) →
  ∃ p, quantile q col = Some p ∧ (lo <= p <= hi)%Q.
Proof.
  intros Hne Hq Hcol. unfold quantile.
  pose proof (Qsort_sorted col) as Hs.
  pose proof (length_sort_by Qcompare id col) as Hlen.
  assert (∀ x, x ∈ sort_by Qcompare id col → (lo <= x <= hi)%Q) as Hin.
  { intros x Hx. by apply Hcol, (elem_of_sort_by Qcompare id). }
  destruct (sort_by Qcompare id col) as [|x0 rest] eqn:E.
  { destruct col; [done|discriminate Hlen]. }
  set (sorted := x0 :: rest) in *.
  set (n := length sorted) in *.
  assert (1 <= n)%nat as Hn by (unfold n, sorted; simpl; lia).
  set (h := (inject_Z (Z.of_nat n - 1) * q)%Q).
  assert (0 <= h <= inject_Z (Z.of_nat n - 1))%Q as Hh.
  { assert (0 <= inject_Z (Z.of_nat n - 1))%Q as Hm.
    { change 0%Q with (inject_Z 0). rewrite <- Zle_Qle. lia. }
    unfold h. generalize dependent (inject_Z (Z.of_nat n - 1)). intros m Hm.
    split; [apply Qmult_le_0_compat; lra|].
    assert (0 <= m * (1 - q))%Q by (apply Qmult_le_0_compat; lra). lra. }
  assert (0 <= Qfloor h <= Z.of_nat n - 1) as Hfl.
  { split.
    - change 0 with (Qfloor (inject_Z 0)). apply Qfloor_resp_le. apply Hh.
    - rewrite <- (Qfloor_Z (Z.of_nat n - 1)). apply Qfloor_resp_le. apply Hh. }
  set (j := Z.to_nat (Qfloor h)).
  assert (j < n)%nat as Hj by (unfold j; lia).
  set (a := nth j sorted x0).
  set (b := nth (Nat.min (S j) (n - 1)) sorted x0).
  assert (a <= b)%Q as Hab by (apply sorted_nth_le; [done|fold n; lia]).
  assert (lo <= a <= hi)%Q as Ha
    by (apply Hin, list_elem_of_In, nth_In; fold n; lia).
  assert (lo <= b <= hi)%Q as Hb
    by (apply Hin, list_elem_of_In, nth_In; fold n; lia).
  pose proof (Qfloor_le h) as Hg0. pose proof (Qlt_floor h) as Hg1.
  rewrite inject_Z_plus in Hg1. change (inject_Z 1) with 1%Q in Hg1.
  eexists. split; [reflexivity|]. fold n h j a b.
  generalize dependent (inject_Z (Qfloor h)). intros f Hg0 Hg1.
  assert (0 <= (h - f) * (b - a))%Q as Hp0 by (apply Qmult_le_0_compat; lra).
  assert ((h - f) * (b - a) <= 1 * (b - a))%Q as Hp1
    by (apply Qmult_le_compat_r; lra).
  generalize dependent ((h - f) * (b - a))%Q. intros g Hp0 Hp1. lra.
Qed.

(** The cutoff of the size legend lies between the smallest and the
    largest precipitation value of a table that has rows; in particular it
    is not negative when no value is. *)
Theorem cutoff_within_data (precip_col : list Q) (lo hi : Q) :
  precip_col ≠ [] → (∀ x, x ∈ precip_col → (lo <= x <= hi)%Q) →
  (lo <= max_precip_of precip_col <= hi)%Q.
Proof.
  intros Hne Hcol.
  destruct (quantile_in_range (19 # 20) precip_col lo hi Hne) as (p & Hp & Hr);
    [lra|done|].
  unfold max_precip_of. destruct precip_col; [done|]. by rewrite Hp.
Qed.

Lemma cutoff_within_data_witness :
  (0 <= max_precip_of sample_precip <= 21)%Q.
Proof.
  apply cutoff_within_data; [done|].
  intros x Hx. unfold sample_precip in Hx.
  apply list_elem_of_fmap in Hx as (n & -> & Hn%elem_of_seq).
  split.
  - change 0%Q with (inject_Z 0). rewrite <- Zle_Qle. lia.
  - change 21%Q with (inject_Z 21). rewrite <- Zle_Qle. lia.
Defined.

(** ** The weather heatmap and the order of the rows *)






(** ** Tables the anomaly heatmap rejects (lines 192-200) *)

Lemma M_bind_Err {A B} (m : M A) (f : A → M B) (w : World) (e : error) :
  m w = Err e → (m ≫= f) w = Err e.
Proof. intros Hm. unfold mbind, M_bind. by rewrite Hm. Qed.

Lemma get_column_Err {A} (name : string) (cols : list (string * list A)) (e : error) :
  get_column name cols = Err e → e = KeyError name ∧ name ∉ cols.*1.
Proof.
  induction cols as [|[n col] cols IH]; simpl.
  - intros [= <-]. split; [done|apply not_elem_of_nil].
  - destruct (decide (n = name)) as [->|Hne]; [done|].
    intros [-> Hnot]%IH. split; [done|]. apply not_elem_of_cons. by split.
Qed.

Lemma get_column_absent {A} (name : string) (cols : list (string * list A)) :
  name ∉ cols.*1 → get_column name cols = Err (KeyError name).
Proof.
  induction cols as [|[n col] cols IH]; simpl; [done|].
  intros [Hne Hnot]%not_elem_of_cons.
  rewrite decide_False by done. by apply IH.
Qed.

(** [melt] raises for the first variable that has no column. *)
Lemma melt_missing {A} (t : GlobalTable A) (vars : list string) (m : string) :
  m ∈ vars → m ∉ (data_columns t).*1 →
  ∃ m', m' ∈ vars ∧ (m' ∉ (data_columns t).*1) ∧ melt t vars = Err (KeyError m').
Proof.
  intros Hm Hnot. induction vars as [|v vars IH]; [by apply elem_of_nil in Hm|].
  simpl. destruct (get_column v (data_columns t)) as [col|e] eqn:Ev.
  - apply elem_of_cons in Hm as [->|Hm].
    { by rewrite get_column_absent in Ev. }
    destruct (IH Hm) as (m' & Hm' & Hnot' & ->).
    exists m'. split_and!; [by right|done|done].
  - apply get_column_Err in Ev as [-> Hv]. exists v. split_and!; [by left|done|done].
Qed.

Lemma melt_present {A} (t : GlobalTable A) (vars : list string) :
  (∀ m, m ∈ vars → ∃ col, get_column m (data_columns t) = Ok col) →
  ∃ long, melt t vars = Ok long.
Proof.
  induction vars as [|v vars IH]; intros Hcols; [by exists []|].
  destruct (Hcols v) as [col Hcol]; [by left|].
  destruct IH as [long Hlong]; [intros m Hm; apply Hcols; by right|].
  simpl. rewrite Hcol, Hlong. by eexists.
Qed.

(** A month column that is missing makes the reshape, and with it the
    renderer, raise a [KeyError] that names a missing month column. *)
Theorem global_heatmap_missing_month `{Backend} (df : nat) (outdir : string)
    (w : World) (t : GlobalTable float) (m : string) :
  heap w !! df = Some (GlobalFrame t) →
  m ∈ months → m ∉ (data_columns t).*1 →
  ∃ m', m' ∈ months ∧ (m' ∉ (data_columns t).*1)
        ∧ global_heatmap_data t = Err (KeyError m')
        ∧ plot_global_temp_heatmap df outdir w = Err (KeyError m').
Proof.
  intros Hdf Hm Hnot.
  destruct (melt_missing t months m Hm Hnot) as (m' & Hm' & Hnot' & Hmelt).
  exists m'. split_and!; [done|done| |].
  - unfold global_heatmap_data. by rewrite Hmelt.
  - unfold plot_global_temp_heatmap.
    erewrite M_bind_Ok by (unfold deref; by rewrite Hdf). cbv beta iota.
    apply M_bind_Err. unfold lift. by rewrite Hmelt.
Qed.

Definition sample_no_december : GlobalTable float :=
  {| Year := [1880];
     data_columns := (λ m, (m, [Some (1 # 10)%Q])) <$> take 11 months |}.

Lemma global_heatmap_missing_month_witness :
  @plot_global_temp_heatmap sample_backend 0 "/out"
    {| fs := {[ "/out" := Dir ]}; heap := [GlobalFrame sample_no_december] |}
  = Err (KeyError "Dec").
Proof.
  destruct (@global_heatmap_missing_month sample_backend 0 "/out"
              {| fs := {[ "/out" := Dir ]}; heap := [GlobalFrame sample_no_december] |}
              sample_no_december "Dec") as (m' & Hm' & Hnot & _ & Hplot).
  - reflexivity.
  - unfold months. rewrite !elem_of_cons. tauto.
  - apply (bool_decide_unpack _). by vm_compute.
  - rewrite Hplot. f_equal. f_equal.
    unfold months in Hm'.
    repeat (apply elem_of_cons in Hm' as [->|Hm'];
            [first [done|exfalso; apply Hnot; apply (bool_decide_unpack _);
                         by vm_compute]|]).
    by apply elem_of_nil in Hm'.
Defined.

(** A year that occurs twice makes the pivot, and with it the renderer,
    raise the duplicate-entries error (given the twelve month columns). *)
Theorem global_heatmap_duplicate_year `{Backend} (df : nat) (outdir : string)
    (w : World) (t : GlobalTable float) :
  heap w !! df = Some (GlobalFrame t) →
  ¬ NoDup (Year t) →
  (∀ m, m ∈ months →
     ∃ col, get_column m (data_columns t) = Ok col ∧ length col = length (Year t)) →
  global_heatmap_data t = Err ValueError_duplicate_entries
  ∧ plot_global_temp_heatmap df outdir w = Err ValueError_duplicate_entries.
Proof.
  intros Hdf Hdup Hcols.
  destruct (Hcols "Jan") as (col & Hcol & Hlen); [by left|].
  destruct (melt_present t (tail months)) as [long' Hlong'].
  { intros m Hm. destruct (Hcols m) as (c & Hc & _); [by right|]. by exists c. }
  assert (melt t months
          = Ok (((λ yv : Z * float, (yv.1, "Jan", yv.2)) <$> zip (Year t) col)
                ++ long')%list) as Hmelt.
  { change months with ("Jan" :: tail months). cbn [melt].
    by rewrite Hcol, Hlong'. }
  assert (global_heatmap_data t = Err ValueError_duplicate_entries) as Herr.
  { unfold global_heatmap_data. rewrite Hmelt, global_pivot_input.
    rewrite pivot_dup; [done|]. intros Hnd. apply Hdup.
    rewrite <- list_fmap_compose, fmap_app in Hnd.
    apply NoDup_app in Hnd as [Hnd _].
    rewrite <- list_fmap_compose in Hnd.
    assert ((λ y : Z, (y, month_order !! "Jan")) <$> Year t
            = (fst ∘ (λ r : Z * string * float, (r.1.1, month_order !! r.1.2, r.2))
                   ∘ (λ yv : Z * float, (yv.1, "Jan", yv.2)))
                <$> zip (Year t) col) as Heq.
    { rewrite <- (fst_zip (Year t) col) at 1 by lia.
      by rewrite <- list_fmap_compose. }
    rewrite <- Heq in Hnd. by apply NoDup_fmap_1 in Hnd. }
  split; [done|].
  unfold plot_global_temp_heatmap.
  erewrite M_bind_Ok by (unfold deref; by rewrite Hdf). cbv beta iota.
  erewrite M_bind_Ok by (unfold lift; by rewrite Hmelt).
  erewrite M_bind_Ok by done.
  erewrite M_bind_Ok by done.
  apply M_bind_Err. unfold lift. by rewrite Herr.
Qed.

Definition sample_twice_1880 : GlobalTable float :=
  {| Year := [1880; 1881; 1880];
     data_columns := (λ m, (m, [Some (1 # 10)%Q; NaN; Some (2 # 10)%Q])) <$> months |}.

Lemma global_heatmap_duplicate_year_witness :
  global_heatmap_data sample_twice_1880 = Err ValueError_duplicate_entries.
Proof.
  refine (proj1 (@global_heatmap_duplicate_year sample_backend 0 "/out"
                   {| fs := ∅; heap := [GlobalFrame sample_twice_1880] |}
                   sample_twice_1880 eq_refl _ _)).
  - intros Hnd. apply NoDup_cons in Hnd as [Hnot _]. apply Hnot.
    simpl. rewrite !elem_of_cons. tauto.
  - intros m Hm.
    repeat (apply elem_of_cons in Hm as [->|Hm]; [eexists; split; reflexivity|]).
    by apply elem_of_nil in Hm.
Defined.

(** ** Rows the Minnesota renderer rejects (line 251) *)

Lemma packed_fields_wide (y m : Z) :
  0 ≤ m ≤ 99 →
  (y * 10000 + m * 100 + 1) / 10000 = y
  ∧ ((y * 10000 + m * 100 + 1) / 100) mod 100 = m
  ∧ (y * 10000 + m * 100 + 1) mod 100 = 1.
Proof.
  intros Hm.
  assert ((y * 10000 + m * 100 + 1) / 100 = y * 100 + m) as E.
  { symmetry. apply (Z.div_unique _ 100 _ 1); lia. }
  split_and!.
  - symmetry. apply (Z.div_unique _ 10000 _ (m * 100 + 1)); lia.
  - rewrite E. symmetry. apply (Z.mod_unique _ 100 y m); lia.
  - symmetry. apply (Z.mod_unique _ 100 (y * 100 + m) 1); lia.
Qed.

Lemma to_datetime_ymd_error (y m d : Z) (e : error) :
  to_datetime_ymd y m d = Err e → e = ValueError_assemble.
Proof.
  unfold to_datetime_ymd.
  destruct (valid_date _ _ _); [|by intros [= <-]].
  destruct (in_ns_bounds _ _ _); [done|by intros [= <-]].
Qed.

Lemma to_datetime_ymd_bad_month (y m : Z) :
  0 ≤ m ≤ 99 → ¬ (1 ≤ m ≤ 12) →
  to_datetime_ymd y m 1 = Err ValueError_assemble.
Proof.
  intros Hm Hbad. unfold to_datetime_ymd.
  destruct (packed_fields_wide y m Hm) as (-> & -> & ->).
  destruct (valid_date y m 1) eqn:E; [|done].
  unfold valid_date in E. rewrite !andb_true_iff, !Z.leb_le in E. lia.
Qed.

Lemma to_datetime_rows_bad (rows : list MinnesotaRecord) (r : MinnesotaRecord) :
  r ∈ rows → to_datetime_ymd (year r) (mo r) 1 = Err ValueError_assemble →
  to_datetime_rows rows = Err ValueError_assemble.
Proof.
  intros Hr Hbad. induction rows as [|r0 rows IH]; [by apply elem_of_nil in Hr|].
  simpl. destruct (to_datetime_ymd (year r0) (mo r0) 1) as [t|e] eqn:E0.
  - apply elem_of_cons in Hr as [->|Hr]; [congruence|]. by rewrite IH.
  - by apply to_datetime_ymd_error in E0 as ->.
Qed.

(** One row with a month that is no calendar month (0, or 13 to 99), in
    a year of four digits, and no date column is made: the renderer
    raises, whatever the other rows hold. *)
Theorem minnesota_invalid_month_raises `{Backend} (df : nat) (outdir : string)
    (w : World) (rows : list MinnesotaRecord) (r : MinnesotaRecord) :
  heap w !! df = Some (MinnesotaFrame rows) →
  r ∈ rows → 1000 ≤ year r ≤ 9999 →
  0 ≤ mo r ≤ 99 → ¬ (1 ≤ mo r ≤ 12) →
  to_datetime_rows rows = Err ValueError_assemble
  ∧ plot_minnesota_precip_line df outdir w = Err ValueError_assemble.
Proof.
  intros Hdf Hr _ Hm Hbad.
  assert (to_datetime_rows rows = Err ValueError_assemble) as Herr.
  { apply (to_datetime_rows_bad rows r Hr). by apply to_datetime_ymd_bad_month. }
  split; [done|].
  unfold plot_minnesota_precip_line.
  erewrite M_bind_Ok;
    [|unfold frame_copy; erewrite M_bind_Ok by (unfold deref; by rewrite Hdf); done].
  erewrite M_bind_Ok;
    [|unfold deref; cbn [heap]; by rewrite list_lookup_middle].
  cbv beta iota. apply M_bind_Err. unfold lift. by rewrite Herr.
Qed.

Lemma minnesota_invalid_month_raises_witness :
  let rows := (sample_minnesota ++
               [ {| site := "Duluth"; year := 1930; mo := 13; mprecip := 2 |} ])%list in
  @plot_minnesota_precip_line sample_backend 0 "/out"
    {| fs := {[ "/out" := Dir ]}; heap := [MinnesotaFrame rows] |}
  = Err ValueError_assemble.
Proof.
  intros rows.
  refine (proj2 (@minnesota_invalid_month_raises sample_backend 0 "/out"
                   {| fs := {[ "/out" := Dir ]}; heap := [MinnesotaFrame rows] |}
                   rows
                   {| site := "Duluth"; year := 1930; mo := 13; mprecip := 2 |}
                   _ _ _ _ _)).
  - reflexivity.
  - unfold rows, sample_minnesota. simpl. rewrite !elem_of_cons. tauto.
  - simpl. lia.
  - simpl. lia.
  - simpl. lia.
Defined.

(** ** What [ensure_output_dir] does to the file system (lines 36-38) *)

(** [files'] is [files] and some more directories. *)
Definition only_adds_dirs (files files' : gmap string Node) : Prop :=
  (∀ p n, files !! p = Some n → files' !! p = Some n)
  ∧ (∀ p n, files' !! p = Some n → files !! p = Some n ∨ n = Dir).

Lemma only_adds_dirs_refl (files : gmap string Node) : only_adds_dirs files files.
Proof. split; [done|]. intros p n Hp. by left. Qed.

Lemma only_adds_dirs_trans (f1 f2 f3 : gmap string Node) :
  only_adds_dirs f1 f2 → only_adds_dirs f2 f3 → only_adds_dirs f1 f3.
Proof.
  intros [Hk1 Hn1] [Hk2 Hn2]. split.
  - intros p n Hp. by apply Hk2, Hk1.
  - intros p n Hp. destruct (Hn2 p n Hp) as [Hp'|Hd]; [by apply Hn1|by right].
Qed.

Lemma mkdir_inv (name : string) (files files' : gmap string Node) :
  mkdir name files = Ok files' →
  files !! rstrip_slashes name = None
  ∧ files' = <[rstrip_slashes name := Dir]> files.
Proof.
  unfold mkdir, lookup_path. destruct (String.eqb name ""); [done|].
  destruct (is_root name); [done|].
  destruct (files !! rstrip_slashes name) as [n|]; [done|]. cbv zeta.
  destruct (String.eqb _ "" || path_isdir files _); [by intros [= <-]|].
  by destruct (path_exists files _).
Qed.

Lemma mkdir_only_adds_dirs (name : string) (files files' : gmap string Node) :
  mkdir name files = Ok files' → only_adds_dirs files files'.
Proof.
  intros [Hnone ->]%mkdir_inv. split.
  - intros p n Hp. rewrite lookup_insert_ne; [done|]. intros <-. congruence.
  - intros p n. rewrite lookup_insert. case_decide; [|by left].
    intros [= <-]. by right.
Qed.

Lemma makedirs_exist_ok_only_adds_dirs (fuel : nat) (name : string)
    (files files' : gmap string Node) :
  makedirs_exist_ok fuel name files = Ok files' → only_adds_dirs files files'.
Proof.
  revert name files files'. induction fuel as [|fuel IH]; intros name files files'.
  all: rewrite makedirs_exist_ok_eq; cbv zeta.
  all: set (ht := if String.eqb (path_split name).2 "" then _ else _).
  all: assert (∀ f f' : gmap string Node,
         match mkdir name f with
         | Ok f'' => Ok f''
         | Err e => if path_isdir f name then Ok f else Err e
         end = Ok f' → only_adds_dirs f f') as Hcreate.
  1,3: intros f f'; destruct (mkdir name f) as [f''|e] eqn:Hmk;
         [intros [= <-]; by eapply mkdir_only_adds_dirs|
          destruct (path_isdir f name); [|done];
          intros [= <-]; apply only_adds_dirs_refl].
  - destruct (negb _ && negb _ && negb _); [done|]. apply Hcreate.
  - destruct (negb _ && negb _ && negb _); [|by apply Hcreate].
    destruct (makedirs_exist_ok fuel ht.1 files) as [files1|e] eqn:Hrec.
    + apply IH in Hrec. destruct (String.eqb ht.2 ".").
      * by intros [= <-].
      * intros Hc%Hcreate. by eapply only_adds_dirs_trans.
    + destruct e; try done. destruct (String.eqb ht.2 ".").
      * intros [= <-]. apply only_adds_dirs_refl.
      * apply Hcreate.
Qed.



Lemma base_dir_exists (script : string) (files : gmap string Node) :
  dirname (dirname script) = "" ∨ path_isdir files (dirname (dirname script)) = true →
  negb (String.eqb (dirname (dirname script)) "")
  && negb (String.eqb "output" "")
  && negb (path_exists files (dirname (dirname script))) = false.
Proof.
  intros [->|Hb]; [done|].
  rewrite (path_isdir_exists _ _ Hb). cbn [negb]. by rewrite andb_false_r.
Qed.

Lemma ensure_output_dir_occupied (script : string) (w : World) (node : Node) :
  dirname (dirname script) = "" ∨ path_isdir (fs w) (dirname (dirname script)) = true →
  fs w !! output_dir script = Some node → node ≠ Dir →
  ensure_output_dir (output_dir script) w = Err (FileExistsError (output_dir script)).
Proof.
  intros Hbase Hout Hnode. unfold ensure_output_dir.
  assert (path_split (output_dir script) = (dirname (dirname script), "output")) as Hsplit.
  { apply path_split_join; [apply dirname_shaped|done..]. }
  assert (mkdir (output_dir script) (fs w) = Err (FileExistsError (output_dir script)))
    as Hmk.
  { destruct (output_dir_plain script) as (Hne & Hroot & _).
    unfold mkdir. by rewrite Hne, Hroot, lookup_path_output_dir, Hout. }
  assert (path_isdir (fs w) (output_dir script) = false) as Hdir.
  { destruct (output_dir_plain script) as (_ & Hroot & _).
    unfold path_isdir. rewrite Hroot, lookup_path_output_dir, Hout.
    by destruct node. }
  rewrite makedirs_exist_ok_eq, Hsplit. cbv zeta.
  change (String.eqb (dirname (dirname script), "output").2 "") with false.
  cbn [fst snd]. by rewrite (base_dir_exists script (fs w) Hbase), Hmk, Hdir.
Qed.

(** When something that is no directory has the name of the output
    directory, [ensure_output_dir] raises [FileExistsError], and so does
    [main], before it reads any table. *)
Theorem output_path_occupied `{Backend} (script : string) (w : World) (node : Node) :
  dirname (dirname script) = "" ∨ path_isdir (fs w) (dirname (dirname script)) = true →
  fs w !! output_dir script = Some node → node ≠ Dir →
  ensure_output_dir (output_dir script) w = Err (FileExistsError (output_dir script))
  ∧ main script w = Err (FileExistsError (output_dir script)).
Proof.
  intros Hbase Hout Hnode.
  pose proof (ensure_output_dir_occupied script w node Hbase Hout Hnode) as Hens.
  split; [done|]. unfold main. cbv zeta. by apply M_bind_Err.
Qed.

Lemma output_path_occupied_witness :
  @main sample_backend sample_script
    {| fs := <["/repo/output" := CsvFile (WeatherFrame [])]> (fs sample_world);
       heap := [] |}
  = Err (FileExistsError "/repo/output").
Proof.
  refine (proj2 (@output_path_occupied sample_backend sample_script
                   {| fs := <["/repo/output" := CsvFile (WeatherFrame [])]>
                              (fs sample_world);
                      heap := [] |}
                   (CsvFile (WeatherFrame [])) _ _ _)).
  - right. by vm_compute.
  - by vm_compute.
  - discriminate.
Defined.

Lemma path_isdir_insert_Dir (files : gmap string Node) (p q : string) :
  path_isdir files p = true → path_isdir (<[q := Dir]> files) p = true.
Proof.
  unfold path_isdir, lookup_path. destruct (is_root p); [done|]. cbn [orb].
  destruct (String.eqb p ""); [done|].
  rewrite lookup_insert. by case_decide.
Qed.

Lemma ensure_output_dir_after (script : string) (w w1 : World) (u : unit) :
  dirname (dirname script) = "" ∨ path_isdir (fs w) (dirname (dirname script)) = true →
  ensure_output_dir (output_dir script) w = Ok (u, w1) →
  (fs w !! output_dir script = None ∨ fs w !! output_dir script = Some Dir)
  ∧ w1 = {| fs := <[output_dir script := Dir]> (fs w); heap := heap w |}.
Proof.
  intros Hbase Hrun.
  destruct (fs w !! output_dir script) as [node|] eqn:Hout.
  - assert (node = Dir ∨ node ≠ Dir) as [->|Hnode]
      by (destruct node; [by left|by right..]).
    + rewrite ensure_output_dir_exists in Hrun by done. injection Hrun as _ <-.
      split; [by right|]. rewrite insert_id by done. by destruct w.
    + by rewrite (ensure_output_dir_occupied script w node) in Hrun.
  - rewrite ensure_output_dir_creates in Hrun by done. injection Hrun as _ <-.
    split; [by left|done].
Qed.

(** A second call of [ensure_output_dir] changes nothing: after a call
    that returned, the output directory is a directory, and the next call
    returns with the file system and the tables as they are. *)
Theorem ensure_output_dir_idempotent (script : string) (w w1 : World) (u : unit) :
  dirname (dirname script) = "" ∨ path_isdir (fs w) (dirname (dirname script)) = true →
  ensure_output_dir (output_dir script) w = Ok (u, w1) →
  fs w1 !! output_dir script = Some Dir
  ∧ ensure_output_dir (output_dir script) w1 = Ok (tt, w1).
Proof.
  intros Hbase Hrun.
  destruct (ensure_output_dir_after script w w1 u Hbase Hrun) as [_ ->]. cbn [fs].
  split; [by rewrite lookup_insert_eq|].
  apply ensure_output_dir_exists; cbn [fs].
  - destruct Hbase as [Hb|Hb]; [by left|right]. by apply path_isdir_insert_Dir.
  - by rewrite lookup_insert_eq.
Qed.

Lemma ensure_output_dir_idempotent_witness :
  ∃ w1, ensure_output_dir "/repo/output" sample_world = Ok (tt, w1)
        ∧ fs sample_world !! "/repo/output" = None
        ∧ ensure_output_dir "/repo/output" w1 = Ok (tt, w1).
Proof.
  destruct (ensure_output_dir "/repo/output" sample_world) as [[[] w1]|e] eqn:E;
    [|by vm_compute in E].
  exists w1. split_and!; [done|by vm_compute|].
  refine (proj2 (ensure_output_dir_idempotent sample_script sample_world w1 tt _ E)).
  right. by vm_compute.
Defined.

(** ** A table that is not there (lines 271-272) *)



(** ** What [main] leaves alone (lines 265-293) *)

Lemma read_csv_inv (path : string) (w w' : World) (df : nat) :
  read_csv path w = Ok (df, w') →
  ∃ table, fs w !! path = Some (CsvFile table) ∧ df = length (heap w)
           ∧ w' = {| fs := fs w; heap := heap w ++ [table] |}.
Proof.
  unfold read_csv. destruct (fs w !! path) as [[|table|]|]; try done.
  intros [-> ->]%alloc_inv. by exists table.
Qed.

Lemma load_global_inv `{Backend} (df df' : nat) (w w' : World) :
  load_global df w = Ok (df', w') →
  ∃ raw t, heap w !! df = Some (GlobalRawFrame raw)
           ∧ preprocess_global str_to_float raw = Ok t
           ∧ df' = length (heap w)
           ∧ w' = {| fs := fs w; heap := heap w ++ [GlobalFrame t] |}.
Proof.
  unfold load_global.
  intros (frame & w1 & [-> Hdf]%deref_inv & Hrun)%M_bind_inv.
  destruct frame as [|raw| | | | |]; try done.
  apply M_bind_inv in Hrun as (l & w1 & [-> ->]%alloc_inv & Hrun).
  apply M_bind_inv in Hrun as (t & w1 & [-> Ht]%lift_inv & Hrun).
  apply M_bind_inv in Hrun as (u & w1 & ->%store_inv & [-> ->]%mret_inv).
  exists raw, t. cbn [fs heap]. by rewrite fresh_store.
Qed.

(** The file system and the memory after a run of [main] that returned:
    the one after [ensure_output_dir] with the four images written into
    it, and the tables that were there with new ones behind them. *)
Lemma main_inv `{Backend} (script : string) (w w' : World) (paths : list string) :
  main script w = Ok (paths, w') →
  ∃ w1 fig1 fig2 fig3 fig4 frames,
    ensure_output_dir (output_dir script) w = Ok (tt, w1)
    ∧ paths = path_join (output_dir script) <$> output_names
    ∧ fs w' = <[path_join (output_dir script) "minnesota_precip_line.png" := PngFile fig4]>
               (<[path_join (output_dir script) "global_temp_heatmap.png" := PngFile fig3]>
                 (<[path_join (output_dir script) "weather_scatter.png" := PngFile fig2]>
                   (<[path_join (output_dir script) "weather_heatmap.png" := PngFile fig1]>
                     (fs w1))))
    ∧ heap w' = (heap w1 ++ frames)%list.
Proof.
  unfold main. cbv zeta. fold (output_dir script) (data_dir script).
  intros ([] & w1 & Hens & Hrun)%M_bind_inv.
  apply M_bind_inv in Hrun as (df1 & w2 & (t1 & _ & _ & ->)%read_csv_inv & Hrun).
  apply M_bind_inv in Hrun as (f1 & w3 & Hp1 & Hrun).
  apply plot_weather_heatmap_inv in Hp1 as (? & M1 & _ & _ & -> & ->).
  apply M_bind_inv in Hrun as (f2 & w4 & Hp2 & Hrun).
  apply plot_weather_scatter_inv in Hp2 as (rows2 & col2 & _ & _ & -> & ->).
  apply M_bind_inv in Hrun as (df2 & w5 & (t2 & _ & _ & ->)%read_csv_inv & Hrun).
  apply M_bind_inv in Hrun as (df3 & w6 & (raw & t & _ & _ & _ & ->)%load_global_inv & Hrun).
  apply M_bind_inv in Hrun as (f3 & w7 & Hp3 & Hrun).
  apply plot_global_temp_heatmap_inv in Hp3 as (? & long & M3 & _ & _ & _ & -> & ->).
  apply M_bind_inv in Hrun as (df4 & w8 & (t4 & _ & _ & ->)%read_csv_inv & Hrun).
  apply M_bind_inv in Hrun as (f4 & w9 & Hp4 & Hrun).
  apply plot_minnesota_precip_line_inv in Hp4 as (rows4 & dates & fig4 & _ & _ & -> & ->).
  apply mret_inv in Hrun as [-> ->].
  eexists w1, _, _, _, fig4, _. split_and!; [done|done|done|].
  cbn [fs heap]. rewrite <- !(assoc_L (++)). reflexivity.
Qed.

(** A run of [main] that returns writes the four images and nothing
    else: every other entry of the file system is as it was, or a new
    directory; no name in the data directory is written to; and every
    table in memory is the one it was. *)
Theorem main_writes_only_images `{Backend} (script : string) (w w' : World)
    (paths : list string) :
  main script w = Ok (paths, w') →
  paths = path_join (output_dir script) <$> output_names
  ∧ (∀ p n, p ∉ paths → fs w !! p = Some n → fs w' !! p = Some n)
  ∧ (∀ p n, p ∉ paths → fs w' !! p = Some n → fs w !! p = Some n ∨ n = Dir)
  ∧ (∀ file n, has_slash file = false → file ≠ "" →
       fs w !! path_join (data_dir script) file = Some n →
       fs w' !! path_join (data_dir script) file = Some n)
  ∧ (∀ l f, heap w !! l = Some f → heap w' !! l = Some f).
Proof.
  intros (w1 & fig1 & fig2 & fig3 & fig4 & frames & Hens & -> & Hfs & Hheap)%main_inv.
  unfold ensure_output_dir in Hens.
  destruct (makedirs_exist_ok _ _ _) as [files|e] eqn:Hmake; [|done].
  injection Hens as <-. cbn [fs heap] in *.
  apply makedirs_exist_ok_only_adds_dirs in Hmake as [Hkept Hnew].
  assert (∀ p, p ∉ path_join (output_dir script) <$> output_names →
            fs w' !! p = files !! p) as Hother.
  { intros p Hp. unfold output_names in Hp. cbn [fmap list_fmap] in Hp.
    rewrite !not_elem_of_cons in Hp. destruct Hp as (? & ? & ? & ? & _).
    rewrite Hfs. by rewrite !lookup_insert_ne. }
  split_and!; [done| | | |].
  - intros p n Hp Hn. rewrite Hother by done. by apply Hkept.
  - intros p n Hp Hn. rewrite Hother in Hn by done. by apply Hnew.
  - intros file n Hf1 Hf2 Hn. rewrite Hother; [by apply Hkept|].
    intros (name & Heq & Hname)%list_elem_of_fmap.
    by eapply image_not_data.
  - intros l f Hl. rewrite Hheap. by apply lookup_app_l_Some.
Qed.

Lemma main_writes_only_images_witness :
  ∃ paths w',
    @main sample_backend sample_script sample_world = Ok (paths, w')
    ∧ fs w' !! "/repo/data/weather_data.csv"
      = Some (CsvFile (WeatherFrame sample_weather))
    ∧ fs w' !! "/repo/data/global_temp.csv"
      = Some (CsvFile (GlobalRawFrame sample_raw_anomalies)).
Proof.
  destruct (@main sample_backend sample_script sample_world) as [[paths w']|e] eqn:E;
    [|by vm_compute in E].
  exists paths, w'. split; [done|].
  destruct (@main_writes_only_images sample_backend sample_script _ _ _ E)
    as (_ & _ & _ & Hdata & _).
  split.
  - by apply (Hdata "weather_data.csv").
  - by apply (Hdata "global_temp.csv").
Defined.

(** ** Running [main] again *)

Lemma string_length_app (s1 s2 : string) :
  String.length (s1 ++ s2) = (String.length s1 + String.length s2)%nat.
Proof. induction s1 as [|c s1 IH]; [done|]. cbn [append String.length]. by rewrite IH. Qed.

Lemma path_join_longer (d name : string) :
  has_slash name = false → name ≠ "" →
  (String.length d < String.length (path_join d name))%nat.
Proof.
  intros Hname Hne. rewrite path_join_eq by done.
  assert (0 < String.length name)%nat by (destruct name; [done|simpl; lia]).
  destruct (String.eqb d "" || ends_with_slash d);
    rewrite !string_length_app; lia.
Qed.

Lemma image_not_base (script name : string) :
  name ∈ output_names →
  dirname (dirname script) ≠ path_join (output_dir script) name.
Proof.
  intros (Hn1 & Hn2 & _)%output_name_plain Heq.
  pose proof (path_join_longer (output_dir script) name Hn1 Hn2) as Hlt.
  pose proof (path_join_longer (dirname (dirname script)) "output" eq_refl) as Hlt'.
  fold (output_dir script) in Hlt'. rewrite <- Heq in Hlt.
  assert ("output" ≠ "") as Hne by done. specialize (Hlt' Hne). lia.
Qed.

Lemma path_isdir_insert_ne (files : gmap string Node) (p q : string) (n : Node) :
  dir_shaped p → p ≠ q → path_isdir (<[q := n]> files) p = path_isdir files p.
Proof.
  intros Hp Hne. unfold path_isdir, lookup_path, is_root.
  destruct (String.eqb p "") eqn:E; [done|]. cbn [negb andb].
  destruct Hp as [->|Hp]; [done|].
  rewrite rstrip_slashes_id by done. by rewrite lookup_insert_ne.
Qed.

(** The files a run of [main] reads, and the directory it writes to. *)
Definition inputs_ready (script : string) (t1 t2 t3 : Frame)
    (files : gmap string Node) : Prop :=
  files !! output_dir script = Some Dir
  ∧ files !! path_join (data_dir script) "weather_data.csv" = Some (CsvFile t1)
  ∧ files !! path_join (data_dir script) "global_temp.csv" = Some (CsvFile t2)
  ∧ files !! path_join (data_dir script) "minnesota_weather.csv" = Some (CsvFile t3).

Lemma inputs_ready_insert_image (script : string) (t1 t2 t3 : Frame)
    (files : gmap string Node) (name : string) (fig : Figure) :
  inputs_ready script t1 t2 t3 files → name ∈ output_names →
  inputs_ready script t1 t2 t3
    (<[path_join (output_dir script) name := PngFile fig]> files).
Proof.
  intros (Hout & Hw & Hg & Hm) Hname. unfold inputs_ready. split_and!.
  - rewrite lookup_insert_ne; [done|]. intros Heq. by eapply image_not_out_dir.
  - rewrite lookup_insert_ne; [done|]. intros Heq. symmetry in Heq.
    by eapply image_not_data in Heq.
  - rewrite lookup_insert_ne; [done|]. intros Heq. symmetry in Heq.
    by eapply image_not_data in Heq.
  - rewrite lookup_insert_ne; [done|]. intros Heq. symmetry in Heq.
    by eapply image_not_data in Heq.
Qed.

Lemma inputs_ready_isdir (script : string) (t1 t2 t3 : Frame)
    (files : gmap string Node) (name : string) :
  inputs_ready script t1 t2 t3 files → name ∈ output_names →
  path_isdir files (dirname (path_join (output_dir script) name)) = true.
Proof.
  intros (Hout & _) Hname.
  pose proof (output_name_plain name Hname) as (Hn1 & Hn2 & _).
  rewrite dirname_join; [|apply output_dir_shaped|done..].
  unfold path_isdir. rewrite lookup_path_output_dir, Hout. by rewrite orb_true_r.
Qed.

Section Again.
Context `{Backend}.

Lemma savefig_rendered (fname : string) (fig : Figure) (w w' : World) (u : unit) :
  savefig fname fig w = Ok (u, w') → render_ok fig = true.
Proof. unfold savefig. by destruct (render_ok fig). Qed.

(** A renderer that has written its image once writes the same image
    for the same table, wherever the directory is there. *)
Lemma plot_weather_heatmap_again (df : nat) (outdir path : string) (w w' : World) :
  plot_weather_heatmap df outdir w = Ok (path, w') →
  ∃ fig,
    path = path_join outdir "weather_heatmap.png"
    ∧ w' = {| fs := <[path := PngFile fig]> (fs w); heap := heap w |}
    ∧ ∀ v df', heap v !! df' = heap w !! df →
        path_isdir (fs v) (dirname path) = true → fs v !! path ≠ Some Dir →
        plot_weather_heatmap df' outdir v
        = Ok (path, {| fs := <[path := PngFile fig]> (fs v); heap := heap v |}).
Proof.
  unfold plot_weather_heatmap at 1.
  intros (frame & w1 & [-> Hdf]%deref_inv & Hrun)%M_bind_inv.
  destruct frame as [rows| | | | | |]; try done.
  apply M_bind_inv in Hrun as (M & w1 & [-> HM]%lift_inv & Hrun).
  apply M_bind_inv in Hrun as (u & w1 & Hsave & [-> ->]%mret_inv).
  pose proof (savefig_rendered _ _ _ _ _ Hsave) as Hr.
  apply savefig_inv in Hsave as ->.
  exists (WeatherHeatmap M). split_and!; [done..|].
  intros v df' Hv Hdir Hnode. unfold plot_weather_heatmap.
  erewrite M_bind_Ok by (unfold deref; by rewrite Hv, Hdf). cbv beta iota.
  erewrite M_bind_Ok by (unfold lift; by rewrite HM).
  erewrite M_bind_Ok by (by apply savefig_ok). done.
Qed.

Lemma plot_weather_scatter_again (df : nat) (outdir path : string) (w w' : World) :
  plot_weather_scatter df outdir w = Ok (path, w') →
  ∃ fig,
    path = path_join outdir "weather_scatter.png"
    ∧ fs w' = <[path := PngFile fig]> (fs w)
    ∧ ∀ v df', heap v !! df' = heap w !! df →
        path_isdir (fs v) (dirname path) = true → fs v !! path ≠ Some Dir →
        ∃ v', plot_weather_scatter df' outdir v = Ok (path, v')
              ∧ fs v' = <[path := PngFile fig]> (fs v).
Proof.
  unfold plot_weather_scatter at 1.
  intros (df_plot & w1 & (f & Hdf & -> & ->)%frame_copy_inv & Hrun)%M_bind_inv.
  apply M_bind_inv in Hrun as (frame & w1 & [-> Hplot]%deref_inv & Hrun).
  cbn [heap] in Hplot. rewrite list_lookup_middle in Hplot by done.
  injection Hplot as <-.
  destruct f as [rows| | | | | |]; try done.
  apply M_bind_inv in Hrun as (col & w1 & [-> Hcol]%lift_inv & Hrun).
  apply M_bind_inv in Hrun as (u & w1 & ->%store_inv & Hrun).
  apply M_bind_inv in Hrun as (u' & w1 & Hsave & [-> ->]%mret_inv).
  pose proof (savefig_rendered _ _ _ _ _ Hsave) as Hr.
  apply savefig_inv in Hsave as ->.
  exists (scatter_figure rows col). split_and!; [done..|].
  intros v df' Hv Hdir Hnode. eexists. unfold plot_weather_scatter.
  erewrite M_bind_Ok;
    [|unfold frame_copy; erewrite M_bind_Ok by (unfold deref; by rewrite Hv, Hdf); done].
  erewrite M_bind_Ok;
    [|unfold deref; cbn [heap]; by rewrite list_lookup_middle].
  cbv beta iota.
  erewrite M_bind_Ok by (unfold lift; by rewrite Hcol).
  erewrite M_bind_Ok by done.
  erewrite M_bind_Ok; [|by apply savefig_ok].
  done.
Qed.

Lemma load_global_again (df df' : nat) (w w' : World) :
  load_global df w = Ok (df', w') →
  ∃ t,
    df' = length (heap w)
    ∧ w' = {| fs := fs w; heap := heap w ++ [GlobalFrame t] |}
    ∧ ∀ v d, heap v !! d = heap w !! df →
        load_global d v
        = Ok (length (heap v), {| fs := fs v; heap := heap v ++ [GlobalFrame t] |}).
Proof.
  unfold load_global at 1.
  intros (frame & w1 & [-> Hdf]%deref_inv & Hrun)%M_bind_inv.
  destruct frame as [|raw| | | | |]; try done.
  apply M_bind_inv in Hrun as (l & w1 & [-> ->]%alloc_inv & Hrun).
  apply M_bind_inv in Hrun as (t & w1 & [-> Ht]%lift_inv & Hrun).
  apply M_bind_inv in Hrun as (u & w1 & ->%store_inv & [-> ->]%mret_inv).
  exists t. cbn [fs heap]. rewrite fresh_store. split_and!; [done..|].
  intros v d Hv. unfold load_global.
  erewrite M_bind_Ok by (unfold deref; by rewrite Hv, Hdf). cbv beta iota.
  erewrite M_bind_Ok by done.
  erewrite M_bind_Ok by (unfold lift; by rewrite Ht).
  erewrite M_bind_Ok by done.
  unfold mret, M_ret. cbn [fs heap]. by rewrite fresh_store.
Qed.

Lemma plot_global_temp_heatmap_again (df : nat) (outdir path : string) (w w' : World) :
  plot_global_temp_heatmap df outdir w = Ok (path, w') →
  ∃ fig,
    path = path_join outdir "global_temp_heatmap.png"
    ∧ fs w' = <[path := PngFile fig]> (fs w)
    ∧ ∀ v df', heap v !! df' = heap w !! df →
        path_isdir (fs v) (dirname path) = true → fs v !! path ≠ Some Dir →
        ∃ v', plot_global_temp_heatmap df' outdir v = Ok (path, v')
              ∧ fs v' = <[path := PngFile fig]> (fs v).
Proof.
  unfold plot_global_temp_heatmap at 1.
  intros (frame & w1 & [-> Hdf]%deref_inv & Hrun)%M_bind_inv.
  destruct frame as [| |t| | | |]; try done.
  apply M_bind_inv in Hrun as (long & w1 & [-> Hlong]%lift_inv & Hrun).
  apply M_bind_inv in Hrun as (df_long & w1 & [-> ->]%alloc_inv & Hrun).
  apply M_bind_inv in Hrun as (u & w1 & ->%store_inv & Hrun).
  apply M_bind_inv in Hrun as (M & w1 & [-> HM]%lift_inv & Hrun).
  apply M_bind_inv in Hrun as (u' & w1 & Hsave & [-> ->]%mret_inv).
  pose proof (savefig_rendered _ _ _ _ _ Hsave) as Hr.
  apply savefig_inv in Hsave as ->.
  exists (GlobalHeatmap M). split_and!; [done..|].
  intros v df' Hv Hdir Hnode. eexists. unfold plot_global_temp_heatmap.
  erewrite M_bind_Ok by (unfold deref; by rewrite Hv, Hdf). cbv beta iota.
  erewrite M_bind_Ok by (unfold lift; by rewrite Hlong).
  erewrite M_bind_Ok by done.
  erewrite M_bind_Ok by done.
  erewrite M_bind_Ok by (unfold lift; by rewrite HM).
  erewrite M_bind_Ok; [|by apply savefig_ok].
  done.
Qed.

Lemma plot_minnesota_precip_line_again (df : nat) (outdir path : string)
    (w w' : World) :
  plot_minnesota_precip_line df outdir w = Ok (path, w') →
  ∃ fig,
    path = path_join outdir "minnesota_precip_line.png"
    ∧ fs w' = <[path := PngFile fig]> (fs w)
    ∧ ∀ v df', heap v !! df' = heap w !! df →
        path_isdir (fs v) (dirname path) = true → fs v !! path ≠ Some Dir →
        ∃ v', plot_minnesota_precip_line df' outdir v = Ok (path, v')
              ∧ fs v' = <[path := PngFile fig]> (fs v).
Proof.
  unfold plot_minnesota_precip_line at 1.
  intros (df_plot & w1 & (f & Hdf & -> & ->)%frame_copy_inv & Hrun)%M_bind_inv.
  apply M_bind_inv in Hrun as (frame & w1 & [-> Hplot]%deref_inv & Hrun).
  cbn [heap] in Hplot. rewrite list_lookup_middle in Hplot by done.
  injection Hplot as <-.
  destruct f as [| | | | |rows|]; try done.
  apply M_bind_inv in Hrun as (dates & w1 & [-> Hdates]%lift_inv & Hrun).
  apply M_bind_inv in Hrun as (u & w1 & ->%store_inv & Hrun).
  apply M_bind_inv in Hrun as (u' & w1 & Hsave & [-> ->]%mret_inv).
  pose proof (savefig_rendered _ _ _ _ _ Hsave) as Hr.
  apply savefig_inv in Hsave as ->.
  eexists. split_and!; [done..|].
  intros v df' Hv Hdir Hnode. eexists. unfold plot_minnesota_precip_line.
  erewrite M_bind_Ok;
    [|unfold frame_copy; erewrite M_bind_Ok by (unfold deref; by rewrite Hv, Hdf); done].
  erewrite M_bind_Ok;
    [|unfold deref; cbn [heap]; by rewrite list_lookup_middle].
  cbv beta iota.
  erewrite M_bind_Ok by (unfold lift; by rewrite Hdates).
  erewrite M_bind_Ok by done.
  erewrite M_bind_Ok; [|by apply savefig_ok].
  done.
Qed.
End Again.

(** After a run of [main] that returned, [main] can be run again: it
    returns the same four paths and leaves the file system as the first
    run left it. *)
Theorem main_repeatable `{Backend} (script : string) (w w' : World)
    (paths : list string) :
  dirname (dirname script) = "" ∨ path_isdir (fs w) (dirname (dirname script)) = true →
  main script w = Ok (paths, w') →
  ∃ w'', main script w' = Ok (paths, w'') ∧ fs w'' = fs w'.
Proof.
  intros Hbase Hrun. unfold main in Hrun. cbv zeta in Hrun.
  fold (output_dir script) (data_dir script) in Hrun.
  apply M_bind_inv in Hrun as (u & w1 & Hens & Hrun).
  destruct (ensure_output_dir_after script w w1 u Hbase Hens) as [_ Hw1].
  apply M_bind_inv in Hrun as (df1 & w2 & (t1 & Ht1 & -> & ->)%read_csv_inv & Hrun).
  apply M_bind_inv in Hrun as (f1 & w3 & Hp1 & Hrun).
  destruct (plot_weather_heatmap_again _ _ _ _ _ Hp1) as (fig1 & -> & -> & Hagain1).
  apply M_bind_inv in Hrun as (f2 & w4 & Hp2 & Hrun).
  destruct (plot_weather_scatter_again _ _ _ _ _ Hp2) as (fig2 & -> & Hfs4 & Hagain2).
  apply M_bind_inv in Hrun as (df2 & w5 & (t2 & Ht2 & -> & ->)%read_csv_inv & Hrun).
  apply M_bind_inv in Hrun as (df3 & w6 & Hload & Hrun).
  destruct (load_global_again _ _ _ _ Hload) as (t & -> & -> & Hagain_load).
  apply M_bind_inv in Hrun as (f3 & w7 & Hp3 & Hrun).
  destruct (plot_global_temp_heatmap_again _ _ _ _ _ Hp3) as (fig3 & -> & Hfs7 & Hagain3).
  apply M_bind_inv in Hrun as (df4 & w8 & (t4 & Ht4 & -> & ->)%read_csv_inv & Hrun).
  apply M_bind_inv in Hrun as (f4 & w9 & Hp4 & Hrun).
  destruct (plot_minnesota_precip_line_again _ _ _ _ _ Hp4)
    as (fig4 & -> & Hfs9 & Hagain4).
  apply mret_inv in Hrun as [-> ->].
  clear Hp1 Hp2 Hp3 Hp4 Hload Hens.
  cbn [fs heap] in *.
  assert (output_names = ["weather_heatmap.png"; "weather_scatter.png";
                          "global_temp_heatmap.png"; "minnesota_precip_line.png"])
    as Hnames by done.
  assert ("weather_heatmap.png" ∈ output_names) as Hn1
    by (rewrite Hnames, !elem_of_cons; tauto).
  assert ("weather_scatter.png" ∈ output_names) as Hn2
    by (rewrite Hnames, !elem_of_cons; tauto).
  assert ("global_temp_heatmap.png" ∈ output_names) as Hn3
    by (rewrite Hnames, !elem_of_cons; tauto).
  assert ("minnesota_precip_line.png" ∈ output_names) as Hn4
    by (rewrite Hnames, !elem_of_cons; tauto).
  clear Hnames.
  (* the file system after the first run *)
  rewrite Hfs4 in Hfs7, Ht2. rewrite Hfs7 in Hfs9, Ht4. clear Hfs4 Hfs7.
  assert (inputs_ready script t1 t2 t4 (fs w1)) as Hready1.
  { unfold inputs_ready. split_and!.
    - rewrite Hw1. cbn [fs]. by rewrite lookup_insert_eq.
    - done.
    - rewrite !lookup_insert_ne in Ht2; [done|..]; intros Heq; symmetry in Heq;
        by eapply image_not_data in Heq.
    - rewrite !lookup_insert_ne in Ht4; [done|..]; intros Heq; symmetry in Heq;
        by eapply image_not_data in Heq. }
  assert (inputs_ready script t1 t2 t4 (fs w9)) as Hready9.
  { rewrite Hfs9. by repeat apply inputs_ready_insert_image. }
  assert (dirname (dirname script) = ""
          ∨ path_isdir (fs w9) (dirname (dirname script)) = true) as Hbase9.
  { destruct Hbase as [Hb|Hb]; [by left|right]. rewrite Hfs9.
    rewrite !path_isdir_insert_ne
      by first [apply dirname_shaped|by apply image_not_base].
    rewrite Hw1. cbn [fs]. by apply path_isdir_insert_Dir. }
  (* the second run *)
  unfold main. cbv zeta. fold (output_dir script) (data_dir script).
  rewrite (M_bind_Ok _ _ _ _ _
             (ensure_output_dir_exists script w9 Hbase9 (proj1 Hready9))).
  rewrite (M_bind_Ok _ _ _ _ _ (read_csv_ok _ _ w9 (proj1 (proj2 Hready9)))).
  set (v2 := {| fs := fs w9; heap := heap w9 ++ [t1] |}).
  assert (plot_weather_heatmap (length (heap w9)) (output_dir script) v2
          = Ok (path_join (output_dir script) "weather_heatmap.png",
                {| fs := <[path_join (output_dir script) "weather_heatmap.png"
                           := PngFile fig1]> (fs v2);
                   heap := heap v2 |})) as Hrun1.
  { apply Hagain1.
    - unfold v2. cbn [heap]. by rewrite !list_lookup_middle.
    - by eapply inputs_ready_isdir.
    - unfold v2. cbn [fs]. rewrite Hfs9, !lookup_insert.
      repeat case_decide; done. }
  rewrite (M_bind_Ok _ _ _ _ _ Hrun1). clear Hrun1 Hagain1.
  set (v3 := {| fs := <[_ := PngFile fig1]> (fs v2); heap := heap v2 |}).
  assert (inputs_ready script t1 t2 t4 (fs v3)) as Hready3
    by (by apply inputs_ready_insert_image).
  destruct (Hagain2 v3 (length (heap w9))) as (v4 & Hrun2 & Hv4).
  { unfold v3, v2. cbn [heap]. by rewrite !list_lookup_middle. }
  { by eapply inputs_ready_isdir. }
  { unfold v3, v2. cbn [fs]. rewrite Hfs9, !lookup_insert.
    repeat case_decide; done. }
  rewrite (M_bind_Ok _ _ _ _ _ Hrun2). clear Hrun2 Hagain2.
  assert (inputs_ready script t1 t2 t4 (fs v4)) as Hready4
    by (rewrite Hv4; by apply inputs_ready_insert_image).
  rewrite (M_bind_Ok _ _ _ _ _
             (read_csv_ok _ _ v4 (proj1 (proj2 (proj2 Hready4))))).
  set (v5 := {| fs := fs v4; heap := heap v4 ++ [t2] |}).
  rewrite (M_bind_Ok _ _ _ _ _ (Hagain_load v5 (length (heap v4))
             ltac:(unfold v5; cbn [heap]; by rewrite !list_lookup_middle))).
  clear Hagain_load.
  set (v6 := {| fs := fs v5; heap := heap v5 ++ [GlobalFrame t] |}).
  destruct (Hagain3 v6 (length (heap v5))) as (v7 & Hrun3 & Hv7).
  { unfold v6. cbn [heap]. by rewrite !list_lookup_middle. }
  { by eapply inputs_ready_isdir. }
  { unfold v6, v5. cbn [fs]. rewrite Hv4. unfold v3, v2. cbn [fs].
    rewrite Hfs9, !lookup_insert. repeat case_decide; done. }
  rewrite (M_bind_Ok _ _ _ _ _ Hrun3). clear Hrun3 Hagain3.
  assert (inputs_ready script t1 t2 t4 (fs v7)) as Hready7
    by (rewrite Hv7; by apply inputs_ready_insert_image).
  rewrite (M_bind_Ok _ _ _ _ _
             (read_csv_ok _ _ v7 (proj2 (proj2 (proj2 Hready7))))).
  set (v8 := {| fs := fs v7; heap := heap v7 ++ [t4] |}).
  destruct (Hagain4 v8 (length (heap v7))) as (v9 & Hrun4 & Hv9).
  { unfold v8. cbn [heap]. by rewrite !list_lookup_middle. }
  { by eapply inputs_ready_isdir. }
  { unfold v8. cbn [fs]. rewrite Hv7. unfold v6, v5. cbn [fs]. rewrite Hv4.
    unfold v3, v2. cbn [fs]. rewrite Hfs9, !lookup_insert.
    repeat case_decide; done. }
  rewrite (M_bind_Ok _ _ _ _ _ Hrun4). clear Hrun4 Hagain4.
  exists v9. split; [done|].
  rewrite Hv9. unfold v8. cbn [fs]. rewrite Hv7. unfold v6, v5. cbn [fs].
  rewrite Hv4. unfold v3, v2. cbn [fs]. rewrite Hfs9.
  apply map_eq. intros p. rewrite !lookup_insert. repeat case_decide; done.
Qed.

Lemma main_repeatable_witness :
  ∃ paths w' w'',
    @main sample_backend sample_script sample_world = Ok (paths, w')
    ∧ @main sample_backend sample_script w' = Ok (paths, w'')
    ∧ fs w'' = fs w'.
Proof.
  destruct (@main sample_backend sample_script sample_world) as [[paths w']|e] eqn:E;
    [|by vm_compute in E].
  destruct (@main_repeatable sample_backend sample_script sample_world w' paths)
    as (w'' & Hagain & Hfs); [right; by vm_compute|exact E|].
  by exists paths, w', w''.
Defined.

(** ** Columns the anomaly heatmap does not read (lines 187-192) *)

Lemma melt_same_columns {A} (t t' : GlobalTable A) (vars : list string) :
  Year t = Year t' →
  (∀ m, m ∈ vars → get_column m (data_columns t) = get_column m (data_columns t')) →
  melt t vars = melt t' vars.
Proof.
  intros Hy Hc. induction vars as [|m vars IH]; [done|]. cbn [melt].
  rewrite (Hc m) by (rewrite elem_of_cons; by left).
  rewrite IH, Hy; [done|]. intros m' Hm'. apply Hc. rewrite elem_of_cons. by right.
Qed.

(** Only the year and the twelve month columns reach the heatmap: two
    tables that agree on them give the same matrix and the same image,
    whatever their other columns (the annual and seasonal means of the
    file) hold. *)
Theorem global_heatmap_other_columns `{Backend} (t t' : GlobalTable float)
    (df df' : nat) (outdir : string) (w : World) :
  Year t = Year t' →
  (∀ m, m ∈ months →
     get_column m (data_columns t) = get_column m (data_columns t')) →
  global_heatmap_data t = global_heatmap_data t'
  ∧ (heap w !! df = Some (GlobalFrame t) → heap w !! df' = Some (GlobalFrame t') →
     plot_global_temp_heatmap df outdir w = plot_global_temp_heatmap df' outdir w).
Proof.
  intros Hy Hc. pose proof (melt_same_columns t t' months Hy Hc) as Hmelt.
  assert (global_heatmap_data t = global_heatmap_data t') as Hdata
    by (unfold global_heatmap_data; by rewrite Hmelt).
  split; [done|]. intros Hdf Hdf'. unfold plot_global_temp_heatmap.
  erewrite (M_bind_Ok (deref df)) by (unfold deref; by rewrite Hdf).
  erewrite (M_bind_Ok (deref df')) by (unfold deref; by rewrite Hdf').
  cbv beta iota. by rewrite Hmelt, Hdata.
Qed.

Definition sample_months_only : GlobalTable float :=
  {| Year := [1882; 1880; 1881];
     data_columns :=
       (λ m, (m, if decide (m = "Jul")
                 then [Some (-10 # 100); Some (-18 # 100); NaN]
                 else [Some (-11 # 100); Some (-17 # 100); Some (-9 # 100)])%Q)
         <$> months |}.

Lemma global_heatmap_other_columns_witness :
  global_heatmap_data sample_anomalies = global_heatmap_data sample_months_only
  ∧ "J-D" ∈ (data_columns sample_anomalies).*1
  ∧ "J-D" ∉ (data_columns sample_months_only).*1.
Proof.
  split_and!.
  - refine (proj1 (@global_heatmap_other_columns sample_backend sample_anomalies
                     sample_months_only 0 0 "/out" {| fs := ∅; heap := [] |} eq_refl _)).
    intros m Hm. unfold months in Hm.
    repeat (apply elem_of_cons in Hm as [->|Hm]; [reflexivity|]).
    by apply elem_of_nil in Hm.
  - apply (bool_decide_unpack _). by vm_compute.
  - apply (bool_decide_unpack _). by vm_compute.
Defined.

(** ** The areas in the size legend (lines 152-161) *)

Lemma np_interp2_bounds (v p : Q) :
  (20 <= np_interp2 v 0 p 20 300 <= 300)%Q.
Proof.
  unfold np_interp2.
  destruct (Qle_bool p v) eqn:E1; [lra|].
  destruct (Qle_bool v 0) eqn:E2; [lra|].
  apply not_true_iff_false in E1, E2. rewrite Qle_bool_iff in E1, E2.
  assert (0 < v)%Q as Hv by lra. assert (v < p)%Q as Hp by lra.
  assert (0 <= (v - 0) / (p - 0))%Q as Hlo.
  { apply Qle_shift_div_l; lra. }
  assert ((v - 0) / (p - 0) <= 1)%Q as Hhi.
  { apply Qle_shift_div_r; lra. }
  generalize dependent ((v - 0) / (p - 0))%Q. intros d Hlo Hhi. lra.
Qed.

Lemma np_interp2_mono (v1 v2 p : Q) :
  (v1 <= v2)%Q → (np_interp2 v1 0 p 20 300 <= np_interp2 v2 0 p 20 300)%Q.
Proof.
  intros Hv. pose proof (np_interp2_bounds v1 p) as Hb1.
  pose proof (np_interp2_bounds v2 p) as Hb2. revert Hb1 Hb2. unfold np_interp2.
  destruct (Qle_bool p v2) eqn:E2; [intros; lra|].
  destruct (Qle_bool p v1) eqn:E1.
  { apply Qle_bool_iff in E1. apply not_true_iff_false in E2.
    rewrite Qle_bool_iff in E2. lra. }
  destruct (Qle_bool v1 0) eqn:E1'; [destruct (Qle_bool v2 0); intros; lra|].
  destruct (Qle_bool v2 0) eqn:E2'.
  { apply Qle_bool_iff in E2'. apply not_true_iff_false in E1'.
    rewrite Qle_bool_iff in E1'. lra. }
  intros _ _.
  apply not_true_iff_false in E1, E2, E1', E2'.
  rewrite Qle_bool_iff in E1, E2, E1', E2'.
  assert ((v1 - 0) / (p - 0) <= (v2 - 0) / (p - 0))%Q as Hd.
  { apply Qmult_le_compat_r; [lra|]. apply Qinv_le_0_compat. lra. }
  generalize dependent ((v1 - 0) / (p - 0))%Q. intros d1.
  generalize dependent ((v2 - 0) / (p - 0))%Q. intros d2 Hd. lra.
Qed.

(** For a cutoff that is not negative, every marker of the size legend
    has an area between 20 and 300, a larger reference value never has
    the smaller marker, a reference value at or above the cutoff has
    area 300, and one at or below zero and below the cutoff has area 20. *)
Theorem size_legend_areas (max_precip : Q) :
  (0 <= max_precip)%Q →
  (∀ v s, (v, s) ∈ size_handles_of max_precip → (20 <= s <= 300)%Q)
  ∧ (∀ v1 s1 v2 s2,
       (v1, s1) ∈ size_handles_of max_precip →
       (v2, s2) ∈ size_handles_of max_precip →
       (v1 <= v2)%Q → (s1 <= s2)%Q)
  ∧ (∀ v s, (v, s) ∈ size_handles_of max_precip →
       (max_precip <= v)%Q → s = 300%Q)
  ∧ (∀ v s, (v, s) ∈ size_handles_of max_precip →
       (v <= 0)%Q → (v < max_precip)%Q → s = 20%Q).
Proof.
  assert (∀ v s, (v, s) ∈ size_handles_of max_precip →
            s = np_interp2 v 0 max_precip 20 300) as Hs.
  { intros v s (v' & [= -> ->] & _)%list_elem_of_fmap. done. }
  intros _. split_and!.
  - intros v s ->%Hs. apply np_interp2_bounds.
  - intros v1 s1 v2 s2 ->%Hs ->%Hs Hv. by apply np_interp2_mono.
  - intros v s ->%Hs Hv. unfold np_interp2.
    by rewrite (proj2 (Qle_bool_iff max_precip v) Hv).
  - intros v s ->%Hs Hv Hlt. unfold np_interp2.
    destruct (Qle_bool max_precip v) eqn:E; [apply Qle_bool_iff in E; lra|].
    by rewrite (proj2 (Qle_bool_iff v 0) Hv).
Qed.

Lemma size_legend_areas_witness :
  ∃ v s, (v, s) ∈ size_handles_of (1995 # 100) ∧ (v <= 0)%Q ∧ s = 20%Q.
Proof.
  destruct (size_handles_of (1995 # 100)) as [|[v s] rest] eqn:E;
    [by vm_compute in E|].
  assert ((v, s) ∈ size_handles_of (1995 # 100)) as Hin by (rewrite E; left).
  assert (v <= 0 ∧ v < 1995 # 100)%Q as [Hv Hlt].
  { vm_compute in E. injection E as <- _ _. unfold Qle, Qlt. simpl. lia. }
  exists v, s. split_and!; [by left|done|].
  assert (0 <= 1995 # 100)%Q as Hcut by (unfold Qle; simpl; lia).
  exact (proj2 (proj2 (proj2 (size_legend_areas (1995 # 100) Hcut))) v s Hin Hv Hlt).
Defined.
